(** * String Analyzer Service: a shallow embedding of [app/main.py]

    The service analyses text, stores every analysis in one sqlite table
    keyed by the SHA-256 of the text, and filters the stored rows either by
    explicit query parameters or by a small rule-based reading of an English
    phrase.

    Conventions of the embedding.
    - A Python [str] is a sequence of code points: [list N].
    - A Python [int] is unbounded: [Z].  Reading one from a decimal
      numeral is not: [int] raises ValueError on more than 4300 digits, the
      interpreter's default limit.
    - The dictionaries of the program have a fixed set of keys and are
      records; a key that may be absent is an [option] field.  The one
      dictionary whose keys are data, [character_frequency_map], is an
      association list in insertion order.
    - The sqlite table is the list of its rows in rowid order, which is the
      order of a full scan.
    - A raised exception is the [Raise] of an [outcome]; an
      [HTTPException] carries its status code and detail.
    - The handlers are modelled as the functions they are; which handler a
      request reaches is the framework's business.
    - A handler runs alone: every access it makes sees the table as its
      own last access left it, and a statement fails only the way the
      schema makes it fail.  Requests that interleave, and a database that
      is locked or full, are not modelled. *)

From Stdlib Require Import List NArith ZArith String Ascii Bool Lia DecimalString.
Import ListNotations.

Set Implicit Arguments.

(** ** Python strings *)

Definition codepoint := N.
Definition str := list codepoint.

(** The ASCII literals of the source, as code-point sequences. *)
Definition py (s : string) : str :=
  map N_of_ascii (list_ascii_of_string s).
Arguments py s%_string.

Fixpoint str_eqb (a b : str) : bool :=
  match a, b with
  | [], [] => true
  | x :: a', y :: b' => N.eqb x y && str_eqb a' b'
  | _, _ => false
  end.

(** [prefix.startswith]: [strip_prefix p s] is what follows [p] in [s]. *)
Fixpoint strip_prefix (p s : str) : option str :=
  match p with
  | [] => Some s
  | x :: p' =>
      match s with
      | [] => None
      | y :: s' => if N.eqb x y then strip_prefix p' s' else None
      end
  end.

(** The leftmost position of [s] at which [match_at] succeeds, as
    [re.search] scans; the empty suffix is tried last. *)
Fixpoint re_search (A : Type) (match_at : str -> option A) (s : str) : option A :=
  match match_at s with
  | Some r => Some r
  | None =>
      match s with
      | [] => None
      | _ :: s' => re_search match_at s'
      end
  end.

(** [needle in hay] on strings. *)
Definition str_in (needle hay : str) : bool :=
  match re_search (strip_prefix needle) hay with
  | Some _ => true
  | None => false
  end.

Fixpoint dropwhile (A : Type) (f : A -> bool) (l : list A) : list A :=
  match l with
  | [] => []
  | x :: l' => if f x then dropwhile f l' else l
  end.

(** ** The ASCII part of the character tables *)

Module Ascii7.
Local Open Scope N_scope.

Definition between (lo hi c : N) : bool := (lo <=? c) && (c <=? hi).

Definition is_ascii (c : codepoint) : bool := c <? 128.

(** A-Z to a-z. *)
Definition lower (c : codepoint) : codepoint :=
  if between 65 90 c then c + 32 else c.

(** Tab, LF, VT, FF, CR, the four separators FS GS RS US, and space. *)
Definition isspace (c : codepoint) : bool :=
  between 9 13 c || between 28 32 c.

(** [0-9] with its value. *)
Definition decimal (c : codepoint) : option N :=
  if between 48 57 c then Some (c - 48) else None.

(** [[A-Za-z0-9_]]. *)
Definition isword (c : codepoint) : bool :=
  between 48 57 c || between 65 90 c || (c =? 95) || between 97 122 c.

(** The class [[A-Fa-f0-9]] of [is_sha256_hex]. *)
Definition ishex (c : codepoint) : bool :=
  between 48 57 c || between 65 70 c || between 97 102 c.

(** The digits of [hexdigest()]: [[a-f0-9]]. *)
Definition islowerhex (c : codepoint) : bool :=
  between 48 57 c || between 97 102 c.

End Ascii7.

(** ** UTF-8 *)

Module Utf8.
Local Open Scope N_scope.

(** [s.encode('utf-8')] for one code point.  A surrogate (D800-DFFF) raises
    UnicodeEncodeError; a number above 10FFFF is not a code point. *)
Definition encode_cp (c : codepoint) : option (list N) :=
  if c <? 0x80 then Some [c]
  else if c <? 0x800 then
    Some [N.lor 0xC0 (N.shiftr c 6); N.lor 0x80 (N.land c 0x3F)]
  else if c <? 0x10000 then
    if Ascii7.between 0xD800 0xDFFF c then None
    else Some [N.lor 0xE0 (N.shiftr c 12);
               N.lor 0x80 (N.land (N.shiftr c 6) 0x3F);
               N.lor 0x80 (N.land c 0x3F)]
  else if c <? 0x110000 then
    Some [N.lor 0xF0 (N.shiftr c 18);
          N.lor 0x80 (N.land (N.shiftr c 12) 0x3F);
          N.lor 0x80 (N.land (N.shiftr c 6) 0x3F);
          N.lor 0x80 (N.land c 0x3F)]
  else None.

Fixpoint encode (s : str) : option (list N) :=
  match s with
  | [] => Some []
  | c :: s' =>
      match encode_cp c, encode s' with
      | Some b, Some bs => Some (b ++ bs)
      | _, _ => None
      end
  end.

End Utf8.

(** ** hashlib.sha256 (FIPS 180-4) *)

Module Sha256.
Local Open Scope N_scope.

Definition w32 (x : N) : N := N.land x 0xFFFFFFFF.
Definition add32 (x y : N) : N := w32 (x + y).
Definition rotr (n x : N) : N :=
  N.lor (N.shiftr x n) (w32 (N.shiftl x (32 - n))).
Definition not32 (x : N) : N := N.lxor (w32 x) 0xFFFFFFFF.

Definition Ch (x y z : N) : N := N.lxor (N.land x y) (N.land (not32 x) z).
Definition Maj (x y z : N) : N :=
  N.lxor (N.lxor (N.land x y) (N.land x z)) (N.land y z).
Definition bsig0 (x : N) : N := N.lxor (N.lxor (rotr 2 x) (rotr 13 x)) (rotr 22 x).
Definition bsig1 (x : N) : N := N.lxor (N.lxor (rotr 6 x) (rotr 11 x)) (rotr 25 x).
Definition ssig0 (x : N) : N := N.lxor (N.lxor (rotr 7 x) (rotr 18 x)) (N.shiftr x 3).
Definition ssig1 (x : N) : N := N.lxor (N.lxor (rotr 17 x) (rotr 19 x)) (N.shiftr x 10).

(** The round constants are the first 32 bits of the fractional parts of
    the cube roots of the first 64 primes, the initial state those of the
    square roots of the first 8: they are computed, not typed in. *)
Fixpoint root_search (pow : N -> N) (bits : nat) (x r : N) : N :=
  match bits with
  | O => r
  | S b =>
      let r' := N.lor r (N.shiftl 1 (N.of_nat b)) in
      root_search pow b x (if pow r' <=? x then r' else r)
  end.

Definition frac_root (pow : N -> N) (scale p : N) : N :=
  w32 (root_search pow 40 (N.shiftl p scale) 0).

Definition primes : list N :=
  [2; 3; 5; 7; 11; 13; 17; 19; 23; 29; 31; 37; 41; 43; 47; 53;
   59; 61; 67; 71; 73; 79; 83; 89; 97; 101; 103; 107; 109; 113; 127; 131;
   137; 139; 149; 151; 157; 163; 167; 173; 179; 181; 191; 193; 197; 199;
   211; 223; 227; 229; 233; 239; 241; 251; 257; 263; 269; 271; 277; 281;
   283; 293; 307; 311].

Definition K : list N :=
  Eval vm_compute in map (frac_root (fun r => r * r * r) 96) primes.

Record state := State
  { sa : N; sb : N; sc : N; sd : N; se : N; sf : N; sg : N; sh : N }.

Definition H0 : state :=
  Eval vm_compute in
    let r := frac_root (fun r => r * r) 64 in
    State (r 2) (r 3) (r 5) (r 7) (r 11) (r 13) (r 17) (r 19).

(** Padding: a 1 bit, zeros up to 56 mod 64 bytes, the bit length on 64 bits. *)
Definition be_bytes (n : nat) (x : N) : list N :=
  map (fun i => N.land (N.shiftr x (8 * N.of_nat i)) 0xFF) (rev (seq 0 n)).

Definition pad (msg : list N) : list N :=
  let len := N.of_nat (List.length msg) in
  let zeros := N.to_nat ((119 - len mod 64) mod 64) in
  msg ++ [0x80] ++ repeat 0 zeros ++ be_bytes 8 (N.land (8 * len) 0xFFFFFFFFFFFFFFFF).

Fixpoint chunks (A : Type) (fuel n : nat) (l : list A) : list (list A) :=
  match fuel with
  | O => []
  | S fuel' =>
      match l with
      | [] => []
      | _ => firstn n l :: chunks fuel' n (skipn n l)
      end
  end.

Definition be_word (bs : list N) : N :=
  fold_left (fun acc b => N.lor (N.shiftl acc 8) b) bs 0.

(** The message schedule: 16 words of the block, then 48 derived ones. *)
Fixpoint schedule (k : nat) (W : list N) : list N :=
  match k with
  | O => W
  | S k' =>
      let t := List.length W in
      let at_ i := nth (t - i) W 0 in
      schedule k' (W ++ [add32 (add32 (ssig1 (at_ 2%nat)) (at_ 7%nat))
                                (add32 (ssig0 (at_ 15%nat)) (at_ 16%nat))])
  end.

Definition round (s : state) (kw : N * N) : state :=
  let (k, w) := kw in
  let t1 := add32 (add32 (add32 (sh s) (bsig1 (se s)))
                         (add32 (Ch (se s) (sf s) (sg s)) k)) w in
  let t2 := add32 (bsig0 (sa s)) (Maj (sa s) (sb s) (sc s)) in
  State (add32 t1 t2) (sa s) (sb s) (sc s) (add32 (sd s) t1) (se s) (sf s) (sg s).

Definition compress (s : state) (block : list N) : state :=
  let W := schedule 48 (map be_word (chunks 16 4 block)) in
  let r := fold_left round (combine K W) s in
  State (add32 (sa s) (sa r)) (add32 (sb s) (sb r)) (add32 (sc s) (sc r))
        (add32 (sd s) (sd r)) (add32 (se s) (se r)) (add32 (sf s) (sf r))
        (add32 (sg s) (sg r)) (add32 (sh s) (sh r)).

Definition digest (msg : list N) : state :=
  let p := pad msg in
  fold_left compress (chunks (List.length p) 64 p) H0.

(** [hexdigest()]: lowercase, eight digits per word. *)
Definition hex_digit (n : N) : codepoint :=
  if n <? 10 then 48 + n else 87 + n.

Definition hex_word (x : N) : str :=
  map (fun i => hex_digit (N.land (N.shiftr x (4 * N.of_nat i)) 15)) (rev (seq 0 8)).

Definition hexdigest (s : state) : str :=
  hex_word (sa s) ++ hex_word (sb s) ++ hex_word (sc s) ++ hex_word (sd s) ++
  hex_word (se s) ++ hex_word (sf s) ++ hex_word (sg s) ++ hex_word (sh s).

End Sha256.

(** ** The character tables beyond ASCII

    [str.lower], [str.isspace], the digits of [\d] and [int], and the word
    characters of [\w] follow the Unicode database of the interpreter.  Their
    ASCII part is fixed above; the rest is a parameter of the model. *)

Record UnicodeData := {
  u_lower : str -> str;
  u_isspace : codepoint -> bool;
  u_decimal : codepoint -> option N;
  u_isword : codepoint -> bool
}.

(** A database that knows no cased letter, space, digit or word character
    beyond ASCII: enough to run the program on ASCII text. *)
Definition ascii_only : UnicodeData :=
  {| u_lower := fun s => s;
     u_isspace := fun _ => false;
     u_decimal := fun _ => None;
     u_isword := fun _ => false |}.

(** ** Results and errors *)

Inductive outcome (E A : Type) : Type :=
| Ok (a : A)
| Raise (e : E).
Arguments Ok {E A} a.
Arguments Raise {E A} e.

(** A statement that may raise, and what follows it. *)
Definition bind (E A B : Type) (m : outcome E A) (k : A -> outcome E B)
    : outcome E B :=
  match m with
  | Ok a => k a
  | Raise e => Raise e
  end.

Notation "x <- m ;; k" := (bind m (fun x => k))
  (at level 61, m at next level, right associativity).

Record HTTPException := { status_code : Z; detail : string }.

Definition ValueError := string.

(** [sys.get_int_max_str_digits()], at its default. *)
Definition int_max_str_digits : nat := 4300.

(** The message of the ValueError of [int] on a numeral of [n] digits. *)
Definition int_limit_message (n : nat) : ValueError :=
  ("Exceeds the limit (4300 digits) for integer string conversion: value has "
   ++ NilZero.string_of_uint (Nat.to_uint n)
   ++ " digits; use sys.set_int_max_str_digits() to increase the limit")%string.

Definition dquote : string := String (ascii_of_nat 34) EmptyString.

(** What the framework answers when a handler lets an exception escape. *)
Definition internal_server_error : HTTPException :=
  {| status_code := 500; detail := "Internal Server Error" |}.

(** ** Pydantic models and the table *)

Record StringProperties := {
  p_length : Z;
  p_is_palindrome : bool;
  p_unique_characters : Z;
  p_word_count : Z;
  p_sha256_hash : str;
  p_character_frequency_map : list (str * Z)
}.

Record StringResponse := {
  r_id : str;
  r_value : str;
  r_properties : StringProperties;
  r_created_at : str
}.

(** [value: Any]: a JSON string, or anything else. *)
Inductive any := AnyStr (s : str) | AnyOther.

Record CreateStringRequest := { value : any }.

(** The table [strings], rows in rowid order.  [properties] is stored as
    JSON text and parsed back on every read; on these dictionaries (string
    keys, integers, booleans, strings) that round trip is the identity, so
    the row holds the dictionary itself. *)
Definition table := list StringResponse.

Definition init_db : table := [].

(** [None] is sqlite3.IntegrityError: [id] is the primary key. *)
Definition db_insert (db : table) (id_ value : str) (properties : StringProperties)
    (created_at : str) : option table :=
  if existsb (fun r => str_eqb (r_id r) id_) db then None
  else Some (db ++ [{| r_id := id_; r_value := value;
                       r_properties := properties; r_created_at := created_at |}]).

Definition db_get_by_id (db : table) (id_ : str) : option StringResponse :=
  find (fun r => str_eqb (r_id r) id_) db.

Definition db_get_by_value (db : table) (value : str) : option StringResponse :=
  find (fun r => str_eqb (r_value r) value) db.

(** The table after the DELETE, and [rowcount]. *)
Definition db_delete_by_id (db : table) (id_ : str) : Z * table :=
  (Z.of_nat (List.length (filter (fun r => str_eqb (r_id r) id_) db)),
   filter (fun r => negb (str_eqb (r_id r) id_)) db).

Definition db_query_all (db : table) : list StringResponse := db.

(** ** Dictionaries keyed by data *)

Fixpoint dict_get (A : Type) (d : list (str * A)) (k : str) (default : A) : A :=
  match d with
  | [] => default
  | (k', v) :: d' => if str_eqb k' k then v else dict_get d' k default
  end.

(** [d[k] = v]: in place when the key is there, at the end otherwise. *)
Fixpoint dict_set (A : Type) (d : list (str * A)) (k : str) (v : A) : list (str * A) :=
  match d with
  | [] => [(k, v)]
  | (k', v') :: d' =>
      if str_eqb k' k then (k', v) :: d' else (k', v') :: dict_set d' k v
  end.

Definition dict_in (A : Type) (k : str) (d : list (str * A)) : bool :=
  existsb (fun kv => str_eqb (fst kv) k) d.

Definition sum_values (d : list (str * Z)) : Z :=
  fold_right (fun kv acc => (snd kv + acc)%Z) 0%Z d.

(** ** Utilities: analysis *)

Definition compute_sha256 (s : str) : option str :=
  match Utf8.encode s with
  | Some bytes => Some (Sha256.hexdigest (Sha256.digest bytes))
  | None => None
  end.

Section Analysis.
Context (U : UnicodeData).

Definition lower (s : str) : str :=
  if forallb Ascii7.is_ascii s then map Ascii7.lower s else u_lower U s.

Definition isspace (c : codepoint) : bool :=
  if Ascii7.is_ascii c then Ascii7.isspace c else u_isspace U c.

Definition decimal (c : codepoint) : option N :=
  if Ascii7.is_ascii c then Ascii7.decimal c else u_decimal U c.

Definition isword (c : codepoint) : bool :=
  if Ascii7.is_ascii c then Ascii7.isword c else u_isword U c.

Definition strip (s : str) : str :=
  rev (dropwhile isspace (rev (dropwhile isspace s))).

(** [s.split()]: the maximal runs of characters that are not whitespace;
    [cur] is the run being read, last character first. *)
Fixpoint split_from (cur s : str) : list str :=
  match s with
  | [] => match cur with [] => [] | _ => [rev cur] end
  | c :: s' =>
      if isspace c then
        match cur with
        | [] => split_from [] s'
        | _ => rev cur :: split_from [] s'
        end
      else split_from (c :: cur) s'
  end.

Definition split (s : str) : list str := split_from [] s.

(** [None]: [compute_sha256] raised UnicodeEncodeError. *)
Definition analyze_string (s : str) : option StringProperties :=
  let length := Z.of_nat (List.length s) in
  let is_palindrome := str_eqb (lower s) (rev (lower s)) in
  let unique_characters := Z.of_nat (List.length (nodup N.eq_dec s)) in
  let word_count := Z.of_nat (List.length (split s)) in
  match compute_sha256 s with
  | None => None
  | Some sha =>
      let freq :=
        fold_left (fun freq ch => dict_set freq [ch] (dict_get freq [ch] 0 + 1)%Z) s [] in
      Some {| p_length := length;
              p_is_palindrome := is_palindrome;
              p_unique_characters := unique_characters;
              p_word_count := word_count;
              p_sha256_hash := sha;
              p_character_frequency_map := freq |}
  end.

(** ** Endpoint: create / analyze

    The request model always has its [value] field, so the first test of the
    handler never fires.  [now] is the clock reading of the call. *)
Definition create_string (now : str) (db : table) (req : CreateStringRequest)
    : outcome HTTPException StringResponse * table :=
  match value req with
  | AnyOther =>
      (Raise {| status_code := 422; detail := (dquote ++ "value" ++ dquote ++ " must be a string")%string |},
       db)
  | AnyStr value =>
      match analyze_string value with
      | None => (Raise internal_server_error, db)
      | Some props =>
          let id_ := p_sha256_hash props in
          match db_get_by_id db id_ with
          | Some existing =>
              (Raise {| status_code := 409;
                        detail := "String already exists in the system" |}, db)
          | None =>
              let created_at := now in
              match db_insert db id_ value props created_at with
              | None =>
                  (Raise {| status_code := 500;
                            detail := "Failed to persist string" |}, db)
              | Some db' =>
                  (Ok {| r_id := id_; r_value := value;
                         r_properties := props; r_created_at := created_at |}, db')
              end
          end
      end
  end.

End Analysis.

(** ** Endpoint: get specific *)

(** [re.fullmatch(r"[A-Fa-f0-9]{64}", s)] *)
Definition is_sha256_hex (s : str) : bool :=
  Nat.eqb (List.length s) 64 && forallb Ascii7.ishex s.

Definition not_found : HTTPException :=
  {| status_code := 404; detail := "String does not exist in the system" |}.

Definition get_string (db : table) (string_value : str)
    : outcome HTTPException StringResponse :=
  if is_sha256_hex string_value then
    match db_get_by_id db string_value with
    | None => Raise not_found
    | Some item => Ok item
    end
  else
    match db_get_by_value db string_value with
    | None => Raise not_found
    | Some item => Ok item
    end.

(** ** Endpoint: delete *)

Definition delete_string (db : table) (string_value : str)
    : outcome HTTPException unit * table :=
  if is_sha256_hex string_value then
    let (changes, db') := db_delete_by_id db string_value in
    if Z.eqb changes 0 then (Raise not_found, db') else (Ok tt, db')
  else
    match db_get_by_value db string_value with
    | None => (Raise not_found, db)
    | Some item =>
        let (changes, db') := db_delete_by_id db (r_id item) in
        if Z.eqb changes 0 then (Raise not_found, db') else (Ok tt, db')
    end.

(** ** Endpoint: get all with filtering *)

(** The five optional query parameters, and the dictionary built by
    [parse_nl_query]: [None] is a parameter left out, a key not set. *)
Record Filters := {
  f_is_palindrome : option bool;
  f_min_length : option Z;
  f_max_length : option Z;
  f_word_count : option Z;
  f_contains_character : option str
}.

(** The inner function [matches] of [list_strings]; the one of
    [filter_by_nl] makes the same five tests on the parsed dictionary. *)
Definition matches (q : Filters) (item : StringResponse) : bool :=
  let p := r_properties item in
  if match f_is_palindrome q with
     | Some b => negb (Bool.eqb (p_is_palindrome p) b)
     | None => false
     end then false
  else if match f_min_length q with
          | Some n => (p_length p <? n)%Z
          | None => false
          end then false
  else if match f_max_length q with
          | Some n => (p_length p >? n)%Z
          | None => false
          end then false
  else if match f_word_count q with
          | Some n => negb (p_word_count p =? n)%Z
          | None => false
          end then false
  else if match f_contains_character q with
          | Some c => negb (dict_in c (p_character_frequency_map p))
          | None => false
          end then false
  else true.

Record ListResponse := {
  data : list StringResponse;
  count : Z;
  filters_applied : Filters
}.

Definition list_strings (db : table) (q : Filters) : ListResponse :=
  let all_items := db_query_all db in
  let data := filter (matches q) all_items in
  {| data := data; count := Z.of_nat (List.length data); filters_applied := q |}.

(** ** Endpoint: natural-language filtering *)

Definition no_filters : Filters :=
  {| f_is_palindrome := None; f_min_length := None; f_max_length := None;
     f_word_count := None; f_contains_character := None |}.

(** [not filters] *)
Definition filters_empty (f : Filters) : bool :=
  match f with
  | {| f_is_palindrome := None; f_min_length := None; f_max_length := None;
       f_word_count := None; f_contains_character := None |} => true
  | _ => false
  end.

Definition set_is_palindrome (f : Filters) (v : bool) : Filters :=
  {| f_is_palindrome := Some v; f_min_length := f_min_length f;
     f_max_length := f_max_length f; f_word_count := f_word_count f;
     f_contains_character := f_contains_character f |}.

Definition set_min_length (f : Filters) (v : Z) : Filters :=
  {| f_is_palindrome := f_is_palindrome f; f_min_length := Some v;
     f_max_length := f_max_length f; f_word_count := f_word_count f;
     f_contains_character := f_contains_character f |}.

Definition set_word_count (f : Filters) (v : Z) : Filters :=
  {| f_is_palindrome := f_is_palindrome f; f_min_length := f_min_length f;
     f_max_length := f_max_length f; f_word_count := Some v;
     f_contains_character := f_contains_character f |}.

Definition set_contains_character (f : Filters) (v : str) : Filters :=
  {| f_is_palindrome := f_is_palindrome f; f_min_length := f_min_length f;
     f_max_length := f_max_length f; f_word_count := f_word_count f;
     f_contains_character := Some v |}.

Record InterpretedQuery := { original : str; parsed_filters : Filters }.

Record NLResponse := {
  nl_data : list StringResponse;
  nl_count : Z;
  interpreted_query : InterpretedQuery
}.

Section NaturalLanguage.
Context (U : UnicodeData).

(** The longest prefix of [s] whose characters satisfy [f], and the rest. *)
Fixpoint span (f : codepoint -> bool) (s : str) : str * str :=
  match s with
  | [] => ([], [])
  | c :: s' =>
      if f c then let (a, b) := span f s' in (c :: a, b) else ([], s)
  end.

Definition isdigit (c : codepoint) : bool :=
  match decimal U c with Some _ => true | None => false end.

(** The number a run of decimal digits denotes. *)
Definition decimal_value (digits : str) : Z :=
  fold_left
    (fun acc c => (10 * acc + Z.of_N (match decimal U c with Some d => d | None => 0%N end))%Z)
    digits 0%Z.

(** [int(digits)] on a run of decimal digits.  Integers are unbounded, but
    the interpreter refuses a numeral of more than [int_max_str_digits]
    digits, leading zeros counted, with a ValueError. *)
Definition py_int (digits : str) : outcome ValueError Z :=
  if Nat.leb (List.length digits) int_max_str_digits
  then Ok (decimal_value digits)
  else Raise (int_limit_message (List.length digits)).

(** [longer than (\d+)] at the head of [s]: group 1 and what follows it.
    The group is greedy. *)
Definition match_longer_than (s : str) : option (str * str) :=
  match strip_prefix (py "longer than ") s with
  | None => None
  | Some rest =>
      match span isdigit rest with
      | ([], _) => None
      | (digits, rest') => Some (digits, rest')
      end
  end.

(** [longer than (\d+) characters] at the head of [s]: group 1.  Giving back
    digits of the greedy group cannot help, a digit is not the space the
    rest of the pattern starts with. *)
Definition match_longer_than_characters (s : str) : option str :=
  match match_longer_than s with
  | None => None
  | Some (digits, rest) =>
      match strip_prefix (py " characters") rest with
      | None => None
      | Some _ => Some digits
      end
  end.

(** [containing the letter (\w)] at the head of [s]: group 1. *)
Definition match_containing_the_letter (s : str) : option str :=
  match strip_prefix (py "containing the letter ") s with
  | Some (c :: _) => if isword U c then Some [c] else None
  | _ => None
  end.

Definition parse_nl_query (q : str) : outcome ValueError Filters :=
  let ql := lower U (strip U q) in
  let filters := no_filters in
  let filters :=
    if str_in (py "single word") ql || str_in (py "single-word") ql
    then set_word_count filters 1 else filters in
  let filters :=
    if str_in (py "palindrom") ql then set_is_palindrome filters true else filters in
  let m := re_search (fun s => option_map fst (match_longer_than s)) ql in
  filters <-
    match m with
    | Some group1 => n <- py_int group1 ;; Ok (set_min_length filters (n + 1))
    | None => Ok filters
    end ;;
  let m2 := re_search match_longer_than_characters ql in
  filters <-
    match m2 with
    | Some group1 => n <- py_int group1 ;; Ok (set_min_length filters (n + 1))
    | None => Ok filters
    end ;;
  let m3 := re_search match_containing_the_letter ql in
  let filters :=
    match m3 with
    | Some group1 => set_contains_character filters group1
    | None => filters
    end in
  let filters :=
    if str_in (py "containing the letter z") ql
       || str_in (py "contain the letter z") ql
       || str_in (py "containing z") ql
    then set_contains_character filters (py "z") else filters in
  let filters :=
    if str_in (py "first vowel") ql
    then set_contains_character filters (py "a") else filters in
  let m4 := re_search match_containing_the_letter ql in
  let filters :=
    match m4 with
    | Some group1 => set_contains_character filters group1
    | None => filters
    end in
  if filters_empty filters
  then Raise "Unable to parse natural language query"%string
  else Ok filters.

Definition filter_by_nl (db : table) (query : str) : outcome HTTPException NLResponse :=
  match parse_nl_query query with
  | Raise e => Raise {| status_code := 400; detail := e |}
  | Ok parsed =>
      let all_items := db_query_all db in
      let data := filter (matches parsed) all_items in
      Ok {| nl_data := data;
            nl_count := Z.of_nat (List.length data);
            interpreted_query := {| original := query; parsed_filters := parsed |} |}
  end.

End NaturalLanguage.

(** ** The invariant of the table

    Every row is keyed by the hash of its value, and [id] is a primary
    key.  Every table the endpoints can produce keeps it
    ([reachable_store_ok] below).  [scalar_value] tells the code points
    UTF-8 can encode. *)

Definition scalar_value (c : codepoint) : bool :=
  ((c <? 0xD800) || ((0xDFFF <? c) && (c <? 0x110000)))%N.

Definition store_ok (db : table) : Prop :=
  NoDup (map r_id db) /\
  Forall (fun r => compute_sha256 (r_value r) = Some (r_id r)) db.

(** The tables the service can be in: the endpoints that write, from the
    empty table. *)
Inductive reachable (U : UnicodeData) : table -> Prop :=
| reach_init : reachable U init_db
| reach_create now db req :
    reachable U db -> reachable U (snd (create_string U now db req))
| reach_delete db s :
    reachable U db -> reachable U (snd (delete_string db s)).

(** ** The evaluator as the specification words it

    A conjunction of the constraints that are present, each read on the
    properties of the record. *)

Definition constraint (A : Type) (c : option A) (holds : A -> bool) : bool :=
  match c with
  | None => true
  | Some a => holds a
  end.

Definition evaluate (q : Filters) (record : StringResponse) : bool :=
  let p := r_properties record in
  constraint (f_is_palindrome q) (fun b => Bool.eqb (p_is_palindrome p) b) &&
  constraint (f_min_length q) (fun n => (n <=? p_length p)%Z) &&
  constraint (f_max_length q) (fun n => (p_length p <=? n)%Z) &&
  constraint (f_word_count q) (fun n => (p_word_count p =? n)%Z) &&
  constraint (f_contains_character q)
    (fun c => existsb (fun kv => str_eqb (fst kv) c) (p_character_frequency_map p)).

(** The message of the ValueError of [parse_nl_query]. *)
Definition unparseable : ValueError := "Unable to parse natural language query"%string.

Definition is_some (A : Type) (o : option A) : bool :=
  match o with Some _ => true | None => false end.

(** Some rule of [parse_nl_query] fires on the lowercased, trimmed phrase. *)
Definition rule_fires (U : UnicodeData) (ql : str) : bool :=
  str_in (py "single word") ql || str_in (py "single-word") ql ||
  str_in (py "palindrom") ql ||
  is_some (re_search (fun s => option_map fst (match_longer_than U s)) ql) ||
  is_some (re_search (match_longer_than_characters U) ql) ||
  is_some (re_search (match_containing_the_letter U) ql) ||
  (str_in (py "containing the letter z") ql
   || str_in (py "contain the letter z") ql
   || str_in (py "containing z") ql) ||
  str_in (py "first vowel") ql.

(** ** The records of the worked examples *)

Definition conflict : HTTPException :=
  {| status_code := 409; detail := "String already exists in the system" |}.

Definition level_request : CreateStringRequest := {| value := AnyStr (py "level") |}.

Definition level_id : str :=
  py "0081779c287d567d9ca622f4c0cc2ede819b0cc7f286a5f01d8c3c0178191ad6".

(** The record of "level" created at [now]. *)
Definition level_record (now : str) : StringResponse :=
  {| r_id := level_id;
     r_value := py "level";
     r_properties :=
       {| p_length := 5;
          p_is_palindrome := true;
          p_unique_characters := 3;
          p_word_count := 1;
          p_sha256_hash := level_id;
          p_character_frequency_map := [(py "l", 2%Z); (py "e", 2%Z); (py "v", 1%Z)] |};
     r_created_at := now |}.

(** "hello world" with e acute and o umlaut, a space and the euro sign:
    13 characters in 17 bytes. *)
Definition accented_text : str :=
  py "h" ++ [233%N] ++ py "llo w" ++ [246%N] ++ py "rld " ++ [8364%N].

(** The table after "racecar", "hello world", "a" and "noon" were created
    in that order, at the times [t1] to [t4]. *)
Definition four_strings (U : UnicodeData) (t1 t2 t3 t4 : str) : table :=
  let create now v db := snd (create_string U now db {| value := AnyStr v |}) in
  create t4 (py "noon")
    (create t3 (py "a")
       (create t2 (py "hello world") (create t1 (py "racecar") init_db))).

(** What the client gets when the phrase cannot be read. *)
Definition parse_error : HTTPException :=
  {| status_code := 400; detail := unparseable |}.

Definition only_min_length (n : Z) : Filters := set_min_length no_filters n.

(** ** Further vocabulary of the statements below *)

(** The declared bounds of the query parameters of [list_strings]: [ge=0]
    on the three numbers, exactly one character for [contains_character]. *)
Definition query_valid (q : Filters) : bool :=
  let nonneg o := match o with Some n => (0 <=? n)%Z | None => true end in
  nonneg (f_min_length q) && nonneg (f_max_length q) && nonneg (f_word_count q) &&
  match f_contains_character q with
  | Some c => Nat.eqb (List.length c) 1
  | None => true
  end.

(** The body of the loop of [analyze_string] that counts the characters. *)
Definition freq_step (freq : list (str * Z)) (ch : codepoint) : list (str * Z) :=
  dict_set freq [ch] (dict_get freq [ch] 0 + 1)%Z.

(** A character that is not whitespace. *)
Definition visible (U : UnicodeData) (c : codepoint) : bool := negb (isspace U c).

(** Where a word may end: at the end of the text or before whitespace. *)
Definition word_end (U : UnicodeData) (rest : str) : Prop :=
  match rest with
  | [] => True
  | c :: _ => isspace U c = true
  end.

(** [word_runs U s ws]: [ws] are, in order, the maximal runs of [s] of
    characters that are not whitespace.  Each run is not empty, holds no
    whitespace, follows a stretch of whitespace that starts the text or
    comes after the run before it, and stops at the end of the text or
    before whitespace; what is left after the last run is whitespace. *)
Inductive word_runs (U : UnicodeData) : str -> list str -> Prop :=
| runs_none (gap : str) :
    forallb (isspace U) gap = true -> word_runs U gap []
| runs_word (gap w rest : str) (ws : list str) :
    forallb (isspace U) gap = true ->
    w <> [] ->
    forallb (visible U) w = true ->
    word_end U rest ->
    word_runs U rest ws ->
    word_runs U (gap ++ w ++ rest) (w :: ws).

(** A row holds the analysis of its value and is keyed by the hash of it. *)
Definition row_analysed (U : UnicodeData) (r : StringResponse) : Prop :=
  analyze_string U (r_value r) = Some (r_properties r) /\
  r_id r = p_sha256_hash (r_properties r).

(** The answer of [create_string] to a value that is not a string. *)
Definition not_a_string : HTTPException :=
  {| status_code := 422;
     detail := (dquote ++ "value" ++ dquote ++ " must be a string")%string |}.

(** Every numeral [parse_nl_query] hands to [int] on the lowercased, trimmed
    phrase is short enough for it. *)
Definition numerals_within_limit (U : UnicodeData) (ql : str) : bool :=
  match re_search (fun s => option_map fst (match_longer_than U s)) ql with
  | Some g => Nat.leb (List.length g) int_max_str_digits
  | None => true
  end &&
  match re_search (match_longer_than_characters U) ql with
  | Some g => Nat.leb (List.length g) int_max_str_digits
  | None => true
  end.

(** * Properties *)

(** Test vectors of FIPS 180-4: one block, the empty message, two blocks. *)
Example sha256_abc :
  Sha256.hexdigest (Sha256.digest (py "abc"))
  = py "ba7816bf8f01cfea414140de5dae2223b00361a396177a9cb410ff61f20015ad".
Proof. vm_compute. reflexivity. Qed.

Example sha256_empty :
  Sha256.hexdigest (Sha256.digest [])
  = py "e3b0c44298fc1c149afbf4c8996fb92427ae41e4649b934ca495991b7852b855".
Proof. vm_compute. reflexivity. Qed.

Example sha256_two_blocks :
  Sha256.hexdigest (Sha256.digest (repeat 97%N 64))
  = py "ffe054fe7ae0cb6dc65c3af9b61d5209f439851db43d0ba5997337df154668eb".
Proof. vm_compute. reflexivity. Qed.

(** ** Strings *)

Lemma str_eqb_eq (a b : str) : str_eqb a b = true <-> a = b.
Proof.
  revert b; induction a as [|x a IH]; intros [|y b]; simpl; split;
    try congruence; try reflexivity.
  - intros H. apply andb_true_iff in H as [Hx Hab].
    apply N.eqb_eq in Hx. apply IH in Hab. congruence.
  - intros H. injection H as -> ->.
    rewrite N.eqb_refl. simpl. now apply IH.
Qed.

Lemma str_eqb_refl (a : str) : str_eqb a a = true.
Proof. now apply str_eqb_eq. Qed.

Lemma str_eqb_neq (a b : str) : str_eqb a b = false <-> a <> b.
Proof.
  split.
  - intros H E. apply str_eqb_eq in E. congruence.
  - intros H. destruct (str_eqb a b) eqn:E; [|reflexivity].
    apply str_eqb_eq in E. contradiction.
Qed.

(** ** Identifiers are 64 lowercase hexadecimal digits *)

Lemma hex_digit_lower (n : N) :
  (n < 16)%N -> Ascii7.islowerhex (Sha256.hex_digit n) = true.
Proof.
  intros H. unfold Sha256.hex_digit, Ascii7.islowerhex, Ascii7.between.
  apply orb_true_iff.
  destruct (N.ltb_spec n 10); [left|right];
    apply andb_true_iff; split; apply N.leb_le; lia.
Qed.

Lemma islowerhex_ishex (c : codepoint) :
  Ascii7.islowerhex c = true -> Ascii7.ishex c = true.
Proof.
  unfold Ascii7.islowerhex, Ascii7.ishex.
  destruct (Ascii7.between 48 57 c), (Ascii7.between 65 70 c); simpl; auto.
Qed.

Lemma nibble_lt (x : N) : (N.land x 15 < 16)%N.
Proof.
  change 15%N with (N.ones 4). rewrite N.land_ones.
  apply N.mod_lt. discriminate.
Qed.

Lemma hex_word_ok (x : N) :
  List.length (Sha256.hex_word x) = 8%nat /\
  forallb Ascii7.islowerhex (Sha256.hex_word x) = true.
Proof.
  unfold Sha256.hex_word. split.
  - now rewrite length_map.
  - apply forallb_forall. intros c Hc.
    apply in_map_iff in Hc as [i [<- _]].
    apply hex_digit_lower, nibble_lt.
Qed.

Lemma hexdigest_lower (s : Sha256.state) :
  List.length (Sha256.hexdigest s) = 64%nat /\
  forallb Ascii7.islowerhex (Sha256.hexdigest s) = true.
Proof.
  unfold Sha256.hexdigest.
  repeat rewrite length_app. repeat rewrite forallb_app.
  repeat rewrite (proj1 (hex_word_ok _)).
  repeat rewrite (proj2 (hex_word_ok _)). split; reflexivity.
Qed.

Lemma hexdigest_is_sha256_hex (s : Sha256.state) :
  is_sha256_hex (Sha256.hexdigest s) = true.
Proof.
  destruct (hexdigest_lower s) as [Hlen Hlow].
  unfold is_sha256_hex. apply andb_true_iff. split.
  - rewrite Hlen. reflexivity.
  - apply forallb_forall. intros c Hc. apply islowerhex_ishex.
    revert c Hc. now apply forallb_forall.
Qed.

Lemma compute_sha256_hex (v h : str) :
  compute_sha256 v = Some h -> is_sha256_hex h = true.
Proof.
  unfold compute_sha256. destruct (Utf8.encode v); [|discriminate].
  intros [= <-]. apply hexdigest_is_sha256_hex.
Qed.

(** ** UTF-8 encodes exactly the scalar values *)

Lemma encode_cp_scalar (c : codepoint) :
  Utf8.encode_cp c <> None <-> scalar_value c = true.
Proof.
  unfold Utf8.encode_cp, scalar_value, Ascii7.between.
  destruct (N.ltb_spec c 0x80) as [H1|H1].
  { split; [intros _|discriminate].
    destruct (N.ltb_spec c 0xD800); [reflexivity|lia]. }
  destruct (N.ltb_spec c 0x800) as [H2|H2].
  { split; [intros _|discriminate].
    destruct (N.ltb_spec c 0xD800); [reflexivity|lia]. }
  destruct (N.ltb_spec c 0x10000) as [H3|H3].
  { destruct (N.leb_spec 0xD800 c), (N.leb_spec c 0xDFFF),
      (N.ltb_spec c 0xD800), (N.ltb_spec 0xDFFF c), (N.ltb_spec c 0x110000);
      cbn [orb andb]; try lia; split; intros; congruence. }
  destruct (N.ltb_spec c 0x110000), (N.ltb_spec c 0xD800), (N.ltb_spec 0xDFFF c);
    cbn [orb andb]; try lia; split; intros; congruence.
Qed.

Lemma encode_scalar (s : str) :
  Utf8.encode s <> None <-> forallb scalar_value s = true.
Proof.
  induction s as [|c s IH]; simpl.
  - split; congruence.
  - rewrite andb_true_iff, <- IH, <- encode_cp_scalar.
    destruct (Utf8.encode_cp c), (Utf8.encode s); intuition congruence.
Qed.

Lemma compute_sha256_total (s : str) :
  compute_sha256 s <> None <-> forallb scalar_value s = true.
Proof.
  rewrite <- encode_scalar. unfold compute_sha256.
  destruct (Utf8.encode s); split; congruence.
Qed.

(** ** Lists as a table *)

Section ListFacts.
Context (A B : Type).
Implicit Types (f : A -> bool) (l : list A).

Lemma find_none_existsb f l : find f l = None -> existsb f l = false.
Proof.
  induction l as [|x l IH]; simpl; [reflexivity|].
  destruct (f x); [discriminate|]. exact IH.
Qed.

Lemma find_none_filter f l : find f l = None -> filter f l = [].
Proof.
  induction l as [|x l IH]; simpl; [reflexivity|].
  destruct (f x); [discriminate|]. exact IH.
Qed.

Lemma find_none_filter_neg f l :
  find f l = None -> filter (fun x => negb (f x)) l = l.
Proof.
  induction l as [|x l IH]; simpl; [reflexivity|].
  destruct (f x); [discriminate|]. simpl. intros H. now rewrite IH.
Qed.

Lemma find_filter_neg f l : find f (filter (fun x => negb (f x)) l) = None.
Proof.
  induction l as [|x l IH]; simpl; [reflexivity|].
  destruct (f x) eqn:E; simpl; [exact IH|]. now rewrite E.
Qed.

Lemma find_app f l l' :
  find f (l ++ l') = match find f l with Some x => Some x | None => find f l' end.
Proof.
  induction l as [|x l IH]; simpl; [reflexivity|].
  destruct (f x); [reflexivity|exact IH].
Qed.

Lemma find_in f l x : In x l -> f x = true -> find f l <> None.
Proof.
  intros Hin Hf E. apply (find_none _ _ E) in Hin. congruence.
Qed.

Lemma NoDup_map_inj (g : A -> B) l a b :
  NoDup (map g l) -> In a l -> In b l -> g a = g b -> a = b.
Proof.
  induction l as [|x l IH]; simpl; [contradiction|].
  intros Hnd Ha Hb E. inversion Hnd as [|? ? Hx Hl]; subst.
  destruct Ha as [<-|Ha], Hb as [<-|Hb]; try reflexivity.
  - exfalso. apply Hx. rewrite E. now apply in_map.
  - exfalso. apply Hx. rewrite <- E. now apply in_map.
  - now apply IH.
Qed.

Lemma NoDup_map_filter (g : A -> B) f l :
  NoDup (map g l) -> NoDup (map g (filter f l)).
Proof.
  induction l as [|x l IH]; simpl; [trivial|].
  intros Hnd. inversion Hnd as [|? ? Hx Hl]; subst.
  destruct (f x); simpl; [|now apply IH].
  constructor; [|now apply IH].
  intros Hin. apply Hx. apply in_map_iff in Hin as [y [Ey Hy]].
  apply filter_In in Hy as [Hy _]. rewrite <- Ey. now apply in_map.
Qed.

Lemma Forall_filter (P : A -> Prop) f l : Forall P l -> Forall P (filter f l).
Proof.
  induction 1 as [|x l Hx Hl IH]; simpl; [constructor|].
  destruct (f x); [constructor|]; assumption.
Qed.

End ListFacts.

(** ** The store keeps its invariant *)

Lemma store_ok_init : store_ok init_db.
Proof. split; constructor. Qed.

Lemma store_ok_get_by_id (db : table) (r : StringResponse) :
  store_ok db -> In r db -> db_get_by_id db (r_id r) = Some r.
Proof.
  intros [Hnd _] Hin. unfold db_get_by_id.
  destruct (find _ db) as [r0|] eqn:E.
  - apply find_some in E as [Hin0 E0]. apply str_eqb_eq in E0.
    f_equal. now apply (NoDup_map_inj r_id db).
  - exfalso. revert E. apply find_in with (x := r); [assumption|].
    apply str_eqb_refl.
Qed.

Lemma store_ok_get_by_value (db : table) (r : StringResponse) :
  store_ok db -> In r db -> db_get_by_value db (r_value r) = Some r.
Proof.
  intros [Hnd Hsha] Hin. unfold db_get_by_value.
  rewrite Forall_forall in Hsha.
  destruct (find _ db) as [r0|] eqn:E.
  - apply find_some in E as [Hin0 E0]. apply str_eqb_eq in E0.
    f_equal. apply (NoDup_map_inj r_id db); try assumption.
    pose proof (Hsha _ Hin) as H1. pose proof (Hsha _ Hin0) as H2.
    rewrite E0 in H2. congruence.
  - exfalso. revert E. apply find_in with (x := r); [assumption|].
    apply str_eqb_refl.
Qed.

Lemma store_ok_values (db : table) : store_ok db -> NoDup (map r_value db).
Proof.
  intros [Hnd Hsha]. induction db as [|r db IH]; simpl; [constructor|].
  inversion Hnd as [|? ? Hr Hdb]; inversion Hsha as [|? ? Hs Hss]; subst.
  constructor; [|now apply IH].
  intros Hin. apply Hr. apply in_map_iff in Hin as [r' [Ev Hin']].
  rewrite Forall_forall in Hss. pose proof (Hss _ Hin') as Hs'.
  rewrite Ev in Hs'. assert (r_id r' = r_id r) as <- by congruence.
  now apply in_map.
Qed.

Lemma analyze_string_sha (U : UnicodeData) (v : str) (p : StringProperties) :
  analyze_string U v = Some p -> compute_sha256 v = Some (p_sha256_hash p).
Proof.
  unfold analyze_string. destruct (compute_sha256 v); [|discriminate].
  now intros [= <-].
Qed.

Lemma analyze_string_total (U : UnicodeData) (v : str) :
  analyze_string U v <> None <-> forallb scalar_value v = true.
Proof.
  rewrite <- compute_sha256_total. unfold analyze_string.
  destruct (compute_sha256 v); split; congruence.
Qed.

(** What a successful create did. *)
Lemma create_string_ok (U : UnicodeData) (now : str) (db db' : table)
    (req : CreateStringRequest) (rec : StringResponse) :
  create_string U now db req = (Ok rec, db') ->
  exists v props,
    value req = AnyStr v /\
    analyze_string U v = Some props /\
    rec = {| r_id := p_sha256_hash props; r_value := v;
             r_properties := props; r_created_at := now |} /\
    db_get_by_id db (p_sha256_hash props) = None /\
    db' = db ++ [rec].
Proof.
  unfold create_string. destruct (value req) as [v|]; [|discriminate].
  destruct (analyze_string U v) as [props|] eqn:Ea; [|discriminate].
  destruct (db_get_by_id db (p_sha256_hash props)) eqn:Eg; [discriminate|].
  unfold db_insert. unfold db_get_by_id in Eg.
  rewrite (find_none_existsb _ _ Eg).
  intros [= <- <-]. exists v, props. repeat split; trivial.
Qed.

(** Every other outcome of a create leaves the table as it was. *)
Lemma create_string_raise (U : UnicodeData) (now : str) (db db' : table)
    (req : CreateStringRequest) (e : HTTPException) :
  create_string U now db req = (Raise e, db') -> db' = db.
Proof.
  unfold create_string. destruct (value req) as [v|]; [|now intros [= _ <-]].
  destruct (analyze_string U v) as [props|]; [|now intros [= _ <-]].
  destruct (db_get_by_id db (p_sha256_hash props)); [now intros [= _ <-]|].
  destruct (db_insert _ _ _ _ _); [discriminate|now intros [= _ <-]].
Qed.

Lemma create_string_store_ok (U : UnicodeData) (now : str) (db : table)
    (req : CreateStringRequest) :
  store_ok db -> store_ok (snd (create_string U now db req)).
Proof.
  intros Hok. destruct (create_string U now db req) as [[rec|e] db'] eqn:E; simpl.
  - apply create_string_ok in E as (v & props & _ & Ea & -> & Eg & ->).
    destruct Hok as [Hnd Hsha]. split.
    + rewrite map_app. simpl. apply NoDup_app; repeat split.
      * exact Hnd.
      * repeat constructor. intros [].
      * intros h Hin [<-|[]]. simpl in Hin.
        apply in_map_iff in Hin as [r [Er Hr]].
        apply (find_none _ _ Eg) in Hr. rewrite Er, str_eqb_refl in Hr.
        discriminate.
    + apply Forall_app. split; [exact Hsha|].
      repeat constructor. simpl. now apply analyze_string_sha with (U := U).
  - now rewrite (create_string_raise _ _ _ _ E).
Qed.

Lemma db_delete_by_id_store_ok (db : table) (id_ : str) :
  store_ok db -> store_ok (snd (db_delete_by_id db id_)).
Proof.
  intros [Hnd Hsha]. split; simpl.
  - now apply NoDup_map_filter.
  - now apply Forall_filter.
Qed.

Lemma delete_string_store_ok (db : table) (s : str) :
  store_ok db -> store_ok (snd (delete_string db s)).
Proof.
  intros Hok. unfold delete_string.
  destruct (is_sha256_hex s).
  - pose proof (db_delete_by_id_store_ok s Hok) as H.
    destruct (db_delete_by_id db s) as [changes db']. simpl in H.
    now destruct (Z.eqb changes 0).
  - destruct (db_get_by_value db s) as [item|]; [|exact Hok].
    pose proof (db_delete_by_id_store_ok (r_id item) Hok) as H.
    destruct (db_delete_by_id db (r_id item)) as [changes db']. simpl in H.
    now destruct (Z.eqb changes 0).
Qed.

Lemma reachable_store_ok (U : UnicodeData) (db : table) :
  reachable U db -> store_ok db.
Proof.
  induction 1.
  - apply store_ok_init.
  - now apply create_string_store_ok.
  - now apply delete_string_store_ok.
Qed.

(** ** Creating *)

Lemma analyze_string_of_sha (U : UnicodeData) (v h : str) :
  compute_sha256 v = Some h ->
  exists p, analyze_string U v = Some p /\ p_sha256_hash p = h.
Proof.
  intros H. unfold analyze_string. rewrite H. eexists. split; reflexivity.
Qed.

(** C1. When a row with id sha256(v) is stored, creating v is answered 409
    and the table is the one before the call; the values of a table that
    keeps the invariant stay pairwise distinct through any create; "level"
    created twice on the empty table succeeds once, as a palindrome of
    length 5, is rejected the second time, and the enumeration holds
    exactly one row of value "level". *)
Theorem create_string_rejects_duplicate (U : UnicodeData) :
  (forall now db v h existing,
      compute_sha256 v = Some h ->
      db_get_by_id db h = Some existing ->
      create_string U now db {| value := AnyStr v |} = (Raise conflict, db)) /\
  (forall now db req,
      store_ok db -> NoDup (map r_value (snd (create_string U now db req)))) /\
  (forall now1 now2,
      let rec := level_record now1 in
      create_string U now1 init_db level_request = (Ok rec, [rec]) /\
      p_is_palindrome (r_properties rec) = true /\
      p_length (r_properties rec) = 5%Z /\
      create_string U now2 [rec] level_request = (Raise conflict, [rec]) /\
      filter (fun r => str_eqb (r_value r) (py "level")) (db_query_all [rec]) = [rec]).
Proof.
  split; [|split].
  - intros now db v h existing Hh Hex.
    destruct (analyze_string_of_sha U v Hh) as (p & Ea & Ep).
    unfold create_string. simpl. rewrite Ea, Ep, Hex. reflexivity.
  - intros now db req Hok. now apply store_ok_values, create_string_store_ok.
  - intros now1 now2. vm_compute. repeat split; reflexivity.
Qed.

Lemma create_string_rejects_duplicate_witness :
  let now := py "2025-01-01T00:00:00+00:00" in
  let later := py "2025-01-02T00:00:00+00:00" in
  create_string ascii_only later [level_record now] level_request
  = (Raise conflict, [level_record now]).
Proof.
  intros now later.
  apply (proj1 (create_string_rejects_duplicate ascii_only))
    with (h := level_id) (existing := level_record now).
  - vm_compute. reflexivity.
  - vm_compute. reflexivity.
Defined.

(** ** Filtering *)

Lemma matches_evaluate (q : Filters) (r : StringResponse) :
  matches q r = evaluate q r.
Proof.
  unfold matches, evaluate, constraint, dict_in.
  destruct (f_is_palindrome q), (f_min_length q), (f_max_length q),
    (f_word_count q), (f_contains_character q);
    rewrite ?Z.gtb_ltb, ?Z.ltb_antisym;
    repeat match goal with
           | |- context [negb ?b] => destruct b; cbn [negb andb]
           end;
    reflexivity.
Qed.

Lemma constraint_true (A : Type) (c : option A) (holds : A -> bool) :
  constraint c holds = true <-> forall a, c = Some a -> holds a = true.
Proof.
  destruct c as [a|]; simpl; split.
  - intros H b [= <-]. exact H.
  - intros H. now apply H.
  - discriminate.
  - reflexivity.
Qed.

(** A key of the frequency map. *)
Lemma dict_key_exists (c : str) (d : list (str * Z)) :
  existsb (fun kv => str_eqb (fst kv) c) d = true <-> exists k, In (c, k) d.
Proof.
  rewrite existsb_exists. split.
  - intros [[c' k] [Hin E]]. apply str_eqb_eq in E. simpl in E. subst. now exists k.
  - intros [k Hin]. exists (c, k). split; [assumption|apply str_eqb_refl].
Qed.

(** C3. [list_strings] returns the rows of the enumeration that satisfy
    every constraint that is present, in the order of the enumeration, and
    counts them; a missing constraint restricts nothing, and both length
    bounds are inclusive.  After "racecar", "hello world", "a", "noon",
    filtering on is_palindrome = true returns "racecar", "a", "noon" in
    that order, count 3. *)
Theorem list_strings_filters (U : UnicodeData) :
  (forall db q,
      data (list_strings db q) = filter (evaluate q) (db_query_all db) /\
      count (list_strings db q) = Z.of_nat (List.length (data (list_strings db q)))) /\
  (forall q r,
      let p := r_properties r in
      evaluate q r = true <->
      (forall b, f_is_palindrome q = Some b -> p_is_palindrome p = b) /\
      (forall n, f_min_length q = Some n -> (n <= p_length p)%Z) /\
      (forall n, f_max_length q = Some n -> (p_length p <= n)%Z) /\
      (forall n, f_word_count q = Some n -> p_word_count p = n) /\
      (forall c, f_contains_character q = Some c ->
                 exists k, In (c, k) (p_character_frequency_map p))) /\
  (forall t1 t2 t3 t4,
      let db := four_strings U t1 t2 t3 t4 in
      let answer := list_strings db (set_is_palindrome no_filters true) in
      map r_value (db_query_all db)
      = [py "racecar"; py "hello world"; py "a"; py "noon"] /\
      map r_value (data answer) = [py "racecar"; py "a"; py "noon"] /\
      count answer = 3%Z).
Proof.
  split; [|split].
  - intros db q. split; [|reflexivity].
    unfold list_strings. simpl. apply filter_ext. intros r.
    apply matches_evaluate.
  - intros q r p. unfold evaluate. fold p.
    rewrite !andb_true_iff, !constraint_true.
    repeat apply and_iff_compat_l || apply and_iff_compat_r.
    split.
    + intros ((((H1 & H2) & H3) & H4) & H5). repeat split.
      * intros b Hb. now apply eqb_prop, H1.
      * intros n Hn. now apply Z.leb_le, H2.
      * intros n Hn. now apply Z.leb_le, H3.
      * intros n Hn. now apply Z.eqb_eq, H4.
      * intros c Hc. now apply dict_key_exists, H5.
    + intros (H1 & H2 & H3 & H4 & H5). repeat split.
      * intros b Hb. rewrite (H1 _ Hb). apply eqb_reflx.
      * intros n Hn. now apply Z.leb_le, H2.
      * intros n Hn. now apply Z.leb_le, H3.
      * intros n Hn. now apply Z.eqb_eq, H4.
      * intros c Hc. now apply dict_key_exists, H5.
  - intros t1 t2 t3 t4. vm_compute. repeat split; reflexivity.
Qed.

(** ** Analysing *)

Lemma sum_values_set (d : list (str * Z)) (k : str) :
  sum_values (dict_set d k (dict_get d k 0 + 1)%Z) = (sum_values d + 1)%Z.
Proof.
  induction d as [|[k' v'] d IH]; simpl.
  - lia.
  - destruct (str_eqb k' k); simpl; [lia|]. rewrite IH. lia.
Qed.

Lemma sum_values_count (s : str) (d : list (str * Z)) :
  sum_values
    (fold_left (fun freq ch => dict_set freq [ch] (dict_get freq [ch] 0 + 1)%Z) s d)
  = (sum_values d + Z.of_nat (List.length s))%Z.
Proof.
  revert d; induction s as [|c s IH]; intros d; simpl fold_left.
  - simpl. lia.
  - rewrite IH, sum_values_set. simpl List.length. lia.
Qed.

Lemma nodup_length_le (s : str) :
  (List.length (nodup N.eq_dec s) <= List.length s)%nat.
Proof.
  induction s as [|c s IH]; simpl; [lia|].
  destruct (in_dec N.eq_dec c s); simpl; lia.
Qed.

(** *** UTF-8, in arithmetic *)

Lemma lor_above (h x k : N) :
  (x < 2 ^ k)%N -> N.lor (h * 2 ^ k) x = (h * 2 ^ k + x)%N.
Proof.
  intros Hx.
  assert (N.land (h * 2 ^ k) x = 0%N) as Hd.
  { apply N.bits_inj. intros n. rewrite N.land_spec, N.bits_0.
    destruct (N.lt_ge_cases n k) as [Hn|Hn].
    - now rewrite N.mul_pow2_bits_low.
    - rewrite <- (N.mod_small x (2 ^ k)) by assumption.
      rewrite N.mod_pow2_bits_high by assumption. apply andb_false_r. }
  now rewrite <- N.lxor_lor, N.add_nocarry_lxor.
Qed.

(** A continuation byte: 10 and six bits. *)
Lemma continuation_byte (x : N) :
  N.lor 0x80 (N.land x 0x3F) = (128 + x mod 64)%N.
Proof.
  change 0x3F%N with (N.ones 6). rewrite N.land_ones.
  change 0x80%N with (2 * 2 ^ 6)%N. rewrite lor_above; [reflexivity|].
  apply N.mod_lt. discriminate.
Qed.

Lemma lead_byte (mark k x : N) :
  (x < 2 ^ k)%N -> N.lor (mark * 2 ^ k) x = (mark * 2 ^ k + x)%N.
Proof. apply lor_above. Qed.

Lemma encode_cp_arith (c : codepoint) :
  Utf8.encode_cp c =
  if (c <? 128)%N then Some [c]
  else if (c <? 2048)%N then Some [(192 + c / 64)%N; (128 + c mod 64)%N]
  else if (c <? 65536)%N then
    if ((55296 <=? c) && (c <=? 57343))%N then None
    else Some [(224 + c / 4096)%N; (128 + (c / 64) mod 64)%N; (128 + c mod 64)%N]
  else if (c <? 1114112)%N then
    Some [(240 + c / 262144)%N; (128 + (c / 4096) mod 64)%N;
          (128 + (c / 64) mod 64)%N; (128 + c mod 64)%N]
  else None.
Proof.
  unfold Utf8.encode_cp, Ascii7.between.
  change 0x80%N with 128%N at 1. change 0x800%N with 2048%N.
  change 0x10000%N with 65536%N. change 0x110000%N with 1114112%N.
  change 0xD800%N with 55296%N. change 0xDFFF%N with 57343%N.
  rewrite !continuation_byte, !N.shiftr_div_pow2.
  change (2 ^ 6)%N with 64%N. change (2 ^ 12)%N with 4096%N.
  change (2 ^ 18)%N with 262144%N.
  destruct (N.ltb_spec c 128); [reflexivity|].
  destruct (N.ltb_spec c 2048) as [H2|H2].
  { do 2 f_equal. change 0xC0%N with (6 * 2 ^ 5)%N. rewrite lead_byte; [reflexivity|].
    change (2 ^ 5)%N with 32%N. apply N.Div0.div_lt_upper_bound. lia. }
  destruct (N.ltb_spec c 65536) as [H3|H3].
  { destruct ((55296 <=? c) && (c <=? 57343))%N; [reflexivity|].
    do 2 f_equal. change 0xE0%N with (14 * 2 ^ 4)%N. rewrite lead_byte; [reflexivity|].
    change (2 ^ 4)%N with 16%N. apply N.Div0.div_lt_upper_bound. lia. }
  destruct (N.ltb_spec c 1114112) as [H4|H4]; [|reflexivity].
  do 2 f_equal. change 0xF0%N with (15 * 2 ^ 4)%N. rewrite lead_byte; [reflexivity|].
  change (2 ^ 4)%N with 16%N. apply N.Div0.div_lt_upper_bound. lia.
Qed.

(** C4. Whenever [analyze_string] returns, which it does on every text of
    scalar values, the length is the number of characters and is at least
    the number of distinct characters, the frequencies sum to the length,
    the hash is the lowercase hexadecimal SHA-256 of the UTF-8 bytes, and a
    create that succeeds stores the record under that hash.  The bytes are
    those of UTF-8: one to four per character, as the arithmetic of the
    encoding has them; the hashes of an accented letter (two bytes), the
    euro sign (three), an emoji (four) and a mixed text are the ones
    hashlib gives, each a text of one character but the last; a lone
    surrogate has no encoding and no analysis. *)
Theorem analyze_string_invariants (U : UnicodeData) :
  (forall v, forallb scalar_value v = true -> exists p, analyze_string U v = Some p) /\
  (forall v p,
      analyze_string U v = Some p ->
      p_length p = Z.of_nat (List.length v) /\
      (p_unique_characters p <= p_length p)%Z /\
      sum_values (p_character_frequency_map p) = p_length p /\
      (exists bytes,
          Utf8.encode v = Some bytes /\
          p_sha256_hash p = Sha256.hexdigest (Sha256.digest bytes)) /\
      List.length (p_sha256_hash p) = 64%nat /\
      forallb Ascii7.islowerhex (p_sha256_hash p) = true /\
      (forall now db rec db',
          create_string U now db {| value := AnyStr v |} = (Ok rec, db') ->
          r_value rec = v /\
          r_properties rec = p /\
          r_id rec = p_sha256_hash p /\
          db_get_by_id db' (r_id rec) = Some rec)) /\
  (forall c,
      Utf8.encode_cp c =
      if (c <? 128)%N then Some [c]
      else if (c <? 2048)%N then Some [(192 + c / 64)%N; (128 + c mod 64)%N]
      else if (c <? 65536)%N then
        if ((55296 <=? c) && (c <=? 57343))%N then None
        else Some [(224 + c / 4096)%N; (128 + (c / 64) mod 64)%N;
                   (128 + c mod 64)%N]
      else if (c <? 1114112)%N then
        Some [(240 + c / 262144)%N; (128 + (c / 4096) mod 64)%N;
              (128 + (c / 64) mod 64)%N; (128 + c mod 64)%N]
      else None) /\
  (exists p, analyze_string U [233%N] = Some p /\ p_length p = 1%Z /\
             p_sha256_hash p
             = py "4a99557e4033c3539de2eb65472017cad5f9557f7a0625a09f1c3f6e2ba69c4c") /\
  (exists p, analyze_string U [8364%N] = Some p /\ p_length p = 1%Z /\
             p_sha256_hash p
             = py "c4cc90ed3d26f12d4b08a75140970a7904035c31cbb4515a83f19b9003c00d1d") /\
  (exists p, analyze_string U [128512%N] = Some p /\ p_length p = 1%Z /\
             p_sha256_hash p
             = py "f0443a342c5ef54783a111b51ba56c938e474c32324d90c3a60c9c8e3a37e2d9") /\
  (exists p, analyze_string U accented_text = Some p /\ p_length p = 13%Z /\
             p_sha256_hash p
             = py "a3260bb658a2bce4e8e8b9cd613904a51582e107bd16c453b5530bd56be4937a") /\
  analyze_string U [55296%N] = None.
Proof.
  assert (forall v h, compute_sha256 v = Some h ->
            exists p, analyze_string U v = Some p /\
                      p_length p = Z.of_nat (List.length v) /\
                      p_sha256_hash p = h) as Hvec.
  { intros v h Hh. unfold analyze_string. rewrite Hh.
    eexists. split; [reflexivity|split; reflexivity]. }
  split; [|split; [|split; [|split; [|split; [|split; [|split]]]]]];
    [| |exact encode_cp_arith
     |apply (Hvec [233%N]); vm_compute; reflexivity
     |apply (Hvec [8364%N]); vm_compute; reflexivity
     |apply (Hvec [128512%N]); vm_compute; reflexivity
     |apply (Hvec accented_text); vm_compute; reflexivity
     |vm_compute; reflexivity].
  - intros v Hv. apply (proj2 (analyze_string_total U v)) in Hv.
    destruct (analyze_string U v) as [p|]; [now exists p|congruence].
  - intros v p Ha. pose proof (analyze_string_sha _ _ Ha) as Hsha.
    unfold analyze_string in Ha.
    destruct (compute_sha256 v) as [sha|] eqn:Es; [|discriminate].
    injection Ha as <-. simpl. repeat split.
    + apply Nat2Z.inj_le, nodup_length_le.
    + rewrite sum_values_count. simpl. lia.
    + unfold compute_sha256 in Es.
      destruct (Utf8.encode v) as [bytes|]; [|discriminate].
      exists bytes. split; congruence.
    + unfold compute_sha256 in Es.
      destruct (Utf8.encode v) as [bytes|]; [|discriminate].
      injection Es as <-. apply hexdigest_lower.
    + unfold compute_sha256 in Es.
      destruct (Utf8.encode v) as [bytes|]; [|discriminate].
      injection Es as <-. apply hexdigest_lower.
    + apply create_string_ok in H as (v' & props & [= <-] & Ea & -> & _ & _).
      reflexivity.
    + apply create_string_ok in H as (v' & props & [= <-] & Ea & -> & _ & _).
      simpl. unfold analyze_string in Ea. rewrite Es in Ea. now injection Ea as <-.
    + apply create_string_ok in H as (v' & props & [= <-] & Ea & -> & _ & _).
      simpl. unfold analyze_string in Ea. rewrite Es in Ea. now injection Ea as <-.
    + apply create_string_ok in H as (v' & props & [= <-] & Ea & -> & Eg & ->).
      cbn [r_id]. unfold db_get_by_id in *. rewrite find_app, Eg. simpl.
      now rewrite str_eqb_refl.
Qed.

Lemma analyze_string_invariants_witness :
  exists p, analyze_string ascii_only [233%N; 8364%N] = Some p /\
            (p_unique_characters p <= p_length p)%Z /\
            sum_values (p_character_frequency_map p) = p_length p.
Proof.
  destruct (proj1 (analyze_string_invariants ascii_only) [233%N; 8364%N]) as [p Hp].
  - vm_compute. reflexivity.
  - exists p. split; [exact Hp|].
    destruct (proj1 (proj2 (analyze_string_invariants ascii_only))
                [233%N; 8364%N] p Hp)
      as (_ & Hu & Hs & _).
    split; assumption.
Defined.

(** C5. The palindrome flag is true exactly when the lowercased text equals
    its own reverse; nothing is stripped.  On ASCII text lowercasing adds 32
    to the capitals A-Z and leaves every other character alone, so the flag
    compares the text with capitals folded: "level", "Madam" and "RaceCar"
    are palindromes; "a man a plan" and "Never odd or even" are not, their
    spaces being kept; nor is "Madam " with its trailing space, nor a
    bracket next to a brace or an at sign next to a backquote, which sit 32
    apart but outside the letters. *)
Theorem analyze_string_is_palindrome (U : UnicodeData) :
  (forall v p,
      analyze_string U v = Some p ->
      (p_is_palindrome p = true <-> lower U v = rev (lower U v))) /\
  (exists p, analyze_string U (py "level") = Some p /\ p_is_palindrome p = true) /\
  (exists p, analyze_string U (py "a man a plan") = Some p /\
             p_is_palindrome p = false) /\
  (forall v,
      forallb Ascii7.is_ascii v = true ->
      lower U v
      = map (fun c => if ((65 <=? c) && (c <=? 90))%N then (c + 32)%N else c) v) /\
  (forall v p,
      forallb Ascii7.is_ascii v = true ->
      analyze_string U v = Some p ->
      let folded :=
        map (fun c => if ((65 <=? c) && (c <=? 90))%N then (c + 32)%N else c) v in
      p_is_palindrome p = true <-> folded = rev folded) /\
  lower U (py "Madam") = py "madam" /\
  lower U (py "A-Z, a-z; @[`{") = py "a-z, a-z; @[`{" /\
  (exists p, analyze_string U (py "Madam") = Some p /\ p_is_palindrome p = true) /\
  (exists p, analyze_string U (py "RaceCar") = Some p /\ p_is_palindrome p = true) /\
  (exists p, analyze_string U (py "Never odd or even") = Some p /\
             p_is_palindrome p = false) /\
  (exists p, analyze_string U (py "Madam ") = Some p /\ p_is_palindrome p = false) /\
  (exists p, analyze_string U (py "[{") = Some p /\ p_is_palindrome p = false) /\
  (exists p, analyze_string U (py "@`") = Some p /\ p_is_palindrome p = false).
Proof.
  assert (forall v p, analyze_string U v = Some p ->
            (p_is_palindrome p = true <-> lower U v = rev (lower U v))) as Hflag.
  { intros v p Ha. unfold analyze_string in Ha.
    destruct (compute_sha256 v); [|discriminate]. injection Ha as <-. simpl.
    apply str_eqb_eq. }
  assert (forall v, forallb Ascii7.is_ascii v = true ->
            lower U v
            = map (fun c => if ((65 <=? c) && (c <=? 90))%N then (c + 32)%N else c) v)
    as Hfold.
  { intros v Hv. unfold lower. rewrite Hv. reflexivity. }
  split; [exact Hflag|].
  split; [eexists; split; [vm_compute; reflexivity|reflexivity]|].
  split; [eexists; split; [vm_compute; reflexivity|reflexivity]|].
  split; [exact Hfold|].
  split.
  { intros v p Hv Ha folded. subst folded. rewrite <- (Hfold v Hv).
    exact (Hflag v p Ha). }
  split; [vm_compute; reflexivity|].
  split; [vm_compute; reflexivity|].
  repeat split; eexists; (split; [vm_compute; reflexivity|reflexivity]).
Qed.

Lemma analyze_string_is_palindrome_witness :
  exists p,
    analyze_string ascii_only (py "Madam") = Some p /\
    (p_is_palindrome p = true <->
     lower ascii_only (py "Madam") = rev (lower ascii_only (py "Madam"))) /\
    lower ascii_only (py "Madam") <> py "Madam".
Proof.
  eexists. split; [vm_compute; reflexivity|]. split.
  - apply (proj1 (analyze_string_is_palindrome ascii_only)).
    vm_compute. reflexivity.
  - vm_compute. discriminate.
Defined.

(** ** Getting and deleting *)

Lemma db_delete_by_id_absent (db : table) (id_ : str) :
  db_get_by_id db id_ = None -> db_delete_by_id db id_ = (0%Z, db).
Proof.
  intros H. unfold db_delete_by_id, db_get_by_id in *.
  now rewrite (find_none_filter _ _ H), (find_none_filter_neg _ _ H).
Qed.

(** C6. An identifier of 64 hexadecimal digits is looked up as an id, any
    other as a value.  On a table that keeps the invariant, after a
    successful create of a value that is not of that shape, the value and
    the id of the new record both get that same record; so it is for
    "level" on the empty table. *)
Theorem get_string_round_trip (U : UnicodeData) :
  (forall db s,
      is_sha256_hex s = true ->
      get_string db s
      = match db_get_by_id db s with Some r => Ok r | None => Raise not_found end) /\
  (forall db s,
      is_sha256_hex s = false ->
      get_string db s
      = match db_get_by_value db s with Some r => Ok r | None => Raise not_found end) /\
  (forall now db v rec db',
      store_ok db ->
      is_sha256_hex v = false ->
      create_string U now db {| value := AnyStr v |} = (Ok rec, db') ->
      get_string db' v = Ok rec /\ get_string db' (r_id rec) = Ok rec) /\
  (forall now,
      create_string U now init_db level_request
      = (Ok (level_record now), [level_record now]) /\
      get_string [level_record now] (py "level") = Ok (level_record now) /\
      get_string [level_record now] (r_id (level_record now)) = Ok (level_record now)).
Proof.
  split; [|split; [|split]].
  - intros db s H. unfold get_string. rewrite H.
    now destruct (db_get_by_id db s).
  - intros db s H. unfold get_string. rewrite H.
    now destruct (db_get_by_value db s).
  - intros now db v rec db' Hok Hv Hc.
    pose proof (create_string_store_ok U now {| value := AnyStr v |} Hok) as Hok'.
    rewrite Hc in Hok'. simpl in Hok'.
    apply create_string_ok in Hc as (v' & props & [= <-] & Ea & Erec & _ & Edb).
    assert (In rec db') as Hin by (rewrite Edb; apply in_or_app; right; now left).
    assert (r_value rec = v) as Ev by now rewrite Erec.
    assert (is_sha256_hex (r_id rec) = true) as Hid.
    { rewrite Erec. simpl. apply compute_sha256_hex with (v := v).
      now apply analyze_string_sha with (U := U). }
    unfold get_string. rewrite Hv, Hid.
    rewrite <- Ev at 1.
    rewrite (@store_ok_get_by_value db' rec Hok' Hin).
    rewrite (@store_ok_get_by_id db' rec Hok' Hin).
    split; reflexivity.
  - intros now. vm_compute. repeat split; reflexivity.
Qed.

Lemma get_string_round_trip_witness :
  let now := py "2025-01-01T00:00:00+00:00" in
  get_string [level_record now] (py "level") = Ok (level_record now) /\
  get_string [level_record now] (r_id (level_record now)) = Ok (level_record now).
Proof.
  intros now.
  apply (proj1 (proj2 (proj2 (get_string_round_trip ascii_only))))
    with (now := now) (db := init_db).
  - split; constructor.
  - vm_compute. reflexivity.
  - vm_compute. reflexivity.
Defined.

(** C7. On a table that keeps the invariant, after a delete by a value
    (not of the shape of an id) succeeded, neither that value nor its id
    gets a record: both are answered 404.  A delete whose identifier
    resolves to no row is answered 404 and changes nothing.  So it is for
    "level". *)
Theorem delete_string_then_get :
  (forall db v db',
      store_ok db ->
      is_sha256_hex v = false ->
      delete_string db v = (Ok tt, db') ->
      exists h,
        compute_sha256 v = Some h /\
        get_string db' v = Raise not_found /\
        get_string db' h = Raise not_found) /\
  (forall db s,
      (if is_sha256_hex s then db_get_by_id db s else db_get_by_value db s) = None ->
      delete_string db s = (Raise not_found, db)) /\
  (forall now,
      delete_string [level_record now] (py "level") = (Ok tt, []) /\
      get_string [] (py "level") = Raise not_found /\
      get_string [] level_id = Raise not_found).
Proof.
  split; [|split].
  - intros db v db' [Hnd Hsha] Hv Hd. unfold delete_string in Hd.
    rewrite Hv in Hd.
    destruct (db_get_by_value db v) as [item|] eqn:Ei; [|discriminate].
    apply find_some in Ei as [Hin Eval]. apply str_eqb_eq in Eval.
    rewrite Forall_forall in Hsha. pose proof (Hsha _ Hin) as Hitem.
    rewrite Eval in Hitem.
    unfold db_delete_by_id in Hd.
    destruct (Z.eqb _ 0) in Hd; [discriminate|]. injection Hd as <-.
    exists (r_id item). split; [exact Hitem|].
    unfold get_string.
    rewrite Hv, (compute_sha256_hex _ Hitem).
    unfold db_get_by_id. rewrite find_filter_neg. split; [|reflexivity].
    destruct (db_get_by_value _ v) as [r|] eqn:Er; [|reflexivity].
    exfalso. apply find_some in Er as [Hr Erv].
    apply str_eqb_eq in Erv. apply filter_In in Hr as [Hr Hne].
    pose proof (Hsha _ Hr) as Hrs. rewrite Erv in Hrs.
    assert (r_id r = r_id item) as E by congruence.
    rewrite E, str_eqb_refl in Hne. discriminate.
  - intros db s H. unfold delete_string.
    destruct (is_sha256_hex s).
    + now rewrite (db_delete_by_id_absent _ _ H).
    + now rewrite H.
  - intros now. vm_compute. repeat split; reflexivity.
Qed.

Lemma delete_string_then_get_witness :
  exists h,
    compute_sha256 (py "level") = Some h /\
    get_string [] (py "level") = Raise not_found /\
    get_string [] h = Raise not_found.
Proof.
  apply (proj1 delete_string_then_get) with (db := [level_record []]).
  - split.
    + apply NoDup_cons; [intros []|apply NoDup_nil].
    + apply Forall_cons; [vm_compute; reflexivity|apply Forall_nil].
  - vm_compute. reflexivity.
  - vm_compute. reflexivity.
Defined.

(** C10. A stored value that has itself the shape of an id, 64 hexadecimal
    digits, and is the id of no row, is not found by get or delete although
    a lookup by value would find its row: such an identifier is only ever
    looked up as an id. *)
Theorem hex_shaped_value_not_found (db : table) (v : str) :
  is_sha256_hex v = true ->
  In v (map r_value db) ->
  ~ In v (map r_id db) ->
  get_string db v = Raise not_found /\
  delete_string db v = (Raise not_found, db) /\
  exists r, db_get_by_value db v = Some r.
Proof.
  intros Hv Hval Hid.
  assert (db_get_by_id db v = None) as Hnone.
  { unfold db_get_by_id. destruct (find _ db) as [r|] eqn:E; [|reflexivity].
    exfalso. apply Hid. apply find_some in E as [Hin E].
    apply str_eqb_eq in E. rewrite <- E. now apply in_map. }
  split; [|split].
  - unfold get_string. now rewrite Hv, Hnone.
  - unfold delete_string. now rewrite Hv, (db_delete_by_id_absent _ _ Hnone).
  - apply in_map_iff in Hval as [r [Er Hin]].
    unfold db_get_by_value. destruct (find _ db) as [r0|] eqn:E; [now exists r0|].
    exfalso. revert E. apply find_in with (x := r); [assumption|].
    rewrite Er. apply str_eqb_refl.
Qed.

Lemma hex_shaped_value_not_found_witness :
  let v := repeat 97%N 64 in
  let db := snd (create_string ascii_only [] init_db {| value := AnyStr v |}) in
  get_string db v = Raise not_found /\
  delete_string db v = (Raise not_found, db) /\
  exists r, db_get_by_value db v = Some r.
Proof.
  intros v db. apply hex_shaped_value_not_found.
  - vm_compute. reflexivity.
  - vm_compute. left. reflexivity.
  - vm_compute. intros [H|[]]. discriminate H.
Defined.

(** ** Reading a phrase *)

(** The dictionary [parse_nl_query] builds, field by field, from what each
    pattern finds in the lowercased, trimmed phrase. *)
Lemma parse_nl_query_fields (U : UnicodeData) (q : str) :
  let ql := lower U (strip U q) in
  let m := re_search (fun s => option_map fst (match_longer_than U s)) ql in
  let m2 := re_search (match_longer_than_characters U) ql in
  let m3 := re_search (match_containing_the_letter U) ql in
  let literal_z :=
    str_in (py "containing the letter z") ql
    || str_in (py "contain the letter z") ql
    || str_in (py "containing z") ql in
  match parse_nl_query U q with
  | Ok f =>
      rule_fires U ql = true /\
      filters_empty f = false /\
      f_word_count f =
        (if str_in (py "single word") ql || str_in (py "single-word") ql
         then Some 1%Z else None) /\
      f_is_palindrome f = (if str_in (py "palindrom") ql then Some true else None) /\
      f_min_length f =
        match m2, m with
        | Some g, _ => Some (decimal_value U g + 1)%Z
        | None, Some g => Some (decimal_value U g + 1)%Z
        | None, None => None
        end /\
      f_max_length f = None /\
      f_contains_character f =
        match m3 with
        | Some c => Some c
        | None =>
            if str_in (py "first vowel") ql then Some (py "a")
            else if literal_z then Some (py "z") else None
        end /\
      numerals_within_limit U ql = true
  | Raise e =>
      (e = unparseable /\ rule_fires U ql = false) \/
      (rule_fires U ql = true /\
       numerals_within_limit U ql = false /\
       exists g, (m = Some g \/ m2 = Some g) /\
                 (int_max_str_digits < List.length g)%nat /\
                 e = int_limit_message (List.length g))
  end /\
  (numerals_within_limit U ql = true ->
   (exists f, parse_nl_query U q = Ok f) \/
   (parse_nl_query U q = Raise unparseable /\ rule_fires U ql = false)).
Proof.
  unfold parse_nl_query, rule_fires, numerals_within_limit, py_int, bind.
  cbv zeta.
  set (ql := lower U (strip U q)).
  destruct (str_in (py "single word") ql || str_in (py "single-word") ql),
    (str_in (py "palindrom") ql),
    (re_search (fun s => option_map fst (match_longer_than U s)) ql) as [g1|],
    (re_search (match_longer_than_characters U) ql) as [g2|],
    (re_search (match_containing_the_letter U) ql),
    (str_in (py "containing the letter z") ql
     || str_in (py "contain the letter z") ql
     || str_in (py "containing z") ql),
    (str_in (py "first vowel") ql);
    try destruct (Nat.leb (List.length g1) int_max_str_digits) eqn:E1;
    try destruct (Nat.leb (List.length g2) int_max_str_digits) eqn:E2;
    cbn [orb andb is_some filters_empty no_filters set_word_count
           set_is_palindrome set_min_length set_contains_character
           f_is_palindrome f_min_length f_max_length f_word_count
           f_contains_character];
    (split;
     [ first
         [ solve [repeat split; reflexivity]
         | solve [left; split; reflexivity]
         | solve [right; split; [reflexivity|]; split; [reflexivity|];
                  eexists; split; [left; reflexivity|];
                  split; [apply Nat.leb_gt; eassumption|reflexivity]]
         | solve [right; split; [reflexivity|]; split; [reflexivity|];
                  eexists; split; [right; reflexivity|];
                  split; [apply Nat.leb_gt; eassumption|reflexivity]] ]
     | intros Hn; try discriminate Hn;
       first [ left; eexists; reflexivity | right; split; reflexivity ] ]).
Qed.

(** *** What the patterns match *)

Lemma strip_prefix_some (p s t : str) : strip_prefix p s = Some t -> s = p ++ t.
Proof.
  revert s; induction p as [|x p IH]; intros s; simpl.
  - now intros [= ->].
  - destruct s as [|y s]; [discriminate|].
    destruct (N.eqb_spec x y) as [->|]; [|discriminate].
    intros H. now rewrite (IH _ H).
Qed.

Lemma re_search_some (A : Type) (match_at : str -> option A) (s : str) (r : A) :
  re_search match_at s = Some r ->
  exists pre suf, s = pre ++ suf /\ match_at suf = Some r.
Proof.
  induction s as [|c s IH]; simpl.
  - destruct (match_at []) eqn:E; [|discriminate].
    intros [= <-]. now exists [], [].
  - destruct (match_at (c :: s)) eqn:E.
    + intros [= <-]. now exists [], (c :: s).
    + intros H. destruct (IH H) as (pre & suf & -> & Hm).
      now exists (c :: pre), suf.
Qed.

Lemma span_spec (f : codepoint -> bool) (s a b : str) :
  span f s = (a, b) ->
  s = a ++ b /\ forallb f a = true /\
  match b with [] => True | c :: _ => f c = false end.
Proof.
  revert a b; induction s as [|c s IH]; intros a b; simpl.
  - intros [= <- <-]. repeat split.
  - destruct (f c) eqn:E.
    + destruct (span f s) as [a' b']. intros [= <- <-].
      destruct (IH _ _ eq_refl) as (-> & Ha & Hb). simpl. rewrite E. now repeat split.
    + intros [= <- <-]. repeat split. exact E.
Qed.

Lemma match_longer_than_shape (U : UnicodeData) (s g rest : str) :
  match_longer_than U s = Some (g, rest) ->
  s = py "longer than " ++ g ++ rest /\ g <> [] /\ forallb (isdigit U) g = true.
Proof.
  unfold match_longer_than.
  destruct (strip_prefix (py "longer than ") s) as [t|] eqn:Et; [|discriminate].
  apply strip_prefix_some in Et.
  destruct (span (isdigit U) t) as [a b] eqn:Es.
  apply span_spec in Es as (-> & Ha & _).
  destruct a as [|d a]; [discriminate|]. intros [= <- <-].
  repeat split; [assumption|discriminate|assumption].
Qed.

Lemma decimal_value_nonneg (U : UnicodeData) (g : str) : (0 <= decimal_value U g)%Z.
Proof.
  unfold decimal_value.
  assert (forall acc, (0 <= acc)%Z ->
            (0 <= fold_left
                    (fun acc c =>
                       10 * acc
                       + Z.of_N match decimal U c with Some d => d | None => 0%N end)
                    g acc)%Z) as H.
  { induction g as [|c g IH]; intros acc Hacc; cbn [fold_left]; [assumption|].
    apply IH. apply Z.add_nonneg_nonneg; [lia|apply N2Z.is_nonneg]. }
  apply H. lia.
Qed.

(** [longer than (\d+)] found [g]: the phrase holds "longer than " and then
    the digits [g]. *)
Lemma search_longer_than_shape (U : UnicodeData) (ql g : str) :
  re_search (fun s => option_map fst (match_longer_than U s)) ql = Some g ->
  exists pre post,
    ql = pre ++ py "longer than " ++ g ++ post /\
    g <> [] /\ forallb (isdigit U) g = true.
Proof.
  intros H. apply re_search_some in H as (pre & suf & -> & Hm).
  destruct (match_longer_than U suf) as [[g' rest]|] eqn:E; [|discriminate].
  injection Hm as <-. apply match_longer_than_shape in E as (-> & Hg & Hd).
  now exists pre, rest.
Qed.

Lemma search_longer_than_characters_shape (U : UnicodeData) (ql g : str) :
  re_search (match_longer_than_characters U) ql = Some g ->
  exists pre post,
    ql = pre ++ py "longer than " ++ g ++ py " characters" ++ post /\
    g <> [] /\ forallb (isdigit U) g = true.
Proof.
  intros H. apply re_search_some in H as (pre & suf & -> & Hm).
  unfold match_longer_than_characters in Hm.
  destruct (match_longer_than U suf) as [[g' rest]|] eqn:E; [|discriminate].
  destruct (strip_prefix (py " characters") rest) as [post|] eqn:Ep; [|discriminate].
  injection Hm as <-. apply strip_prefix_some in Ep as ->.
  apply match_longer_than_shape in E as (-> & Hg & Hd).
  now exists pre, post.
Qed.

Lemma search_containing_the_letter_shape (U : UnicodeData) (ql g : str) :
  re_search (match_containing_the_letter U) ql = Some g ->
  exists pre c post,
    ql = pre ++ py "containing the letter " ++ c :: post /\
    g = [c] /\ isword U c = true.
Proof.
  intros H. apply re_search_some in H as (pre & suf & -> & Hm).
  unfold match_containing_the_letter in Hm.
  destruct (strip_prefix (py "containing the letter ") suf) as [[|c post]|] eqn:E;
    try discriminate.
  destruct (isword U c) eqn:Ew; [|discriminate].
  injection Hm as <-. apply strip_prefix_some in E as ->.
  now exists pre, c, post.
Qed.

(** *** What [parse_nl_query] returns, and when it raises *)

Lemma parse_ok_fields (U : UnicodeData) (q : str) (f : Filters) :
  parse_nl_query U q = Ok f ->
  let ql := lower U (strip U q) in
  let m := re_search (fun s => option_map fst (match_longer_than U s)) ql in
  let m2 := re_search (match_longer_than_characters U) ql in
  let m3 := re_search (match_containing_the_letter U) ql in
  rule_fires U ql = true /\
  filters_empty f = false /\
  f_min_length f =
    match m2, m with
    | Some g, _ => Some (decimal_value U g + 1)%Z
    | None, Some g => Some (decimal_value U g + 1)%Z
    | None, None => None
    end /\
  f_max_length f = None /\
  f_contains_character f =
    match m3 with
    | Some c => Some c
    | None =>
        if str_in (py "first vowel") ql then Some (py "a")
        else if str_in (py "containing the letter z") ql
                || str_in (py "contain the letter z") ql
                || str_in (py "containing z") ql
             then Some (py "z") else None
    end /\
  numerals_within_limit U ql = true.
Proof.
  intros H. pose proof (proj1 (parse_nl_query_fields U q)) as F. cbv zeta in F.
  rewrite H in F. destruct F as (H1 & H2 & _ & _ & H5 & H6 & H7 & H8).
  repeat split; assumption.
Qed.

Lemma long_numeral_fires (U : UnicodeData) (ql : str) :
  numerals_within_limit U ql = false -> rule_fires U ql = true.
Proof.
  unfold numerals_within_limit, rule_fires.
  destruct (re_search (fun s => option_map fst (match_longer_than U s)) ql),
    (re_search (match_longer_than_characters U) ql);
    cbn [is_some andb]; rewrite ?orb_true_r; cbn [orb];
    try reflexivity; discriminate.
Qed.

(** The two errors cannot be taken for each other. *)
Lemma unparseable_not_limit (n : nat) : unparseable <> int_limit_message n.
Proof. unfold unparseable, int_limit_message. simpl. discriminate. Qed.

Lemma parse_raise_cases (U : UnicodeData) (q : str) (e : ValueError) :
  parse_nl_query U q = Raise e ->
  let ql := lower U (strip U q) in
  (e = unparseable /\ rule_fires U ql = false /\ numerals_within_limit U ql = true) \/
  (rule_fires U ql = true /\
   numerals_within_limit U ql = false /\
   exists n, (int_max_str_digits < n)%nat /\ e = int_limit_message n).
Proof.
  intros H ql. pose proof (proj1 (parse_nl_query_fields U q)) as F. cbv zeta in F.
  rewrite H in F. fold ql in F. destruct F as [[-> Hr]|(Hr & Hn & g & _ & Hg & ->)].
  - left. repeat split; [assumption|].
    destruct (numerals_within_limit U ql) eqn:E; [reflexivity|].
    apply long_numeral_fires in E. congruence.
  - right. repeat split; try assumption. now exists (List.length g).
Qed.

Lemma parse_returns (U : UnicodeData) (q : str) :
  let ql := lower U (strip U q) in
  rule_fires U ql = true ->
  numerals_within_limit U ql = true ->
  exists f, parse_nl_query U q = Ok f.
Proof.
  intros ql Hr Hn.
  destruct (proj2 (parse_nl_query_fields U q) Hn) as [Hf|[_ Hno]];
    [exact Hf|]. fold ql in Hno. congruence.
Qed.


(** "palindromic strings longer than" and a numeral of 4301 digits: the
    rule for palindromes has fired and set its key when [int] raises, and
    [filter_by_nl] answers 400 with the message of [int]. *)
Lemma long_numeral_raises_with_key_set :
  let q := py "palindromic strings longer than " ++ repeat 49%N 4301 in
  rule_fires ascii_only (lower ascii_only (strip ascii_only q)) = true /\
  str_in (py "palindrom") (lower ascii_only (strip ascii_only q)) = true /\
  parse_nl_query ascii_only q = Raise (int_limit_message 4301) /\
  int_limit_message 4301
  = ("Exceeds the limit (4300 digits) for integer string conversion: "
     ++ "value has 4301 digits; "
     ++ "use sys.set_int_max_str_digits() to increase the limit")%string /\
  int_limit_message 4301 <> unparseable /\
  filter_by_nl ascii_only init_db q
  = Raise {| status_code := 400; detail := int_limit_message 4301 |}.
Proof.
  vm_compute. repeat split; try reflexivity. discriminate.
Qed.

(** C8, as the code has it.  [parse_nl_query] raises "Unable to parse
    natural language query" exactly when no rule fired on the lowercased,
    trimmed phrase, that is when no key was set.  It has one other error:
    the ValueError of [int] on a numeral of more than 4300 digits after
    "longer than", raised whatever keys were set before.  In every other
    case it returns, and a dictionary it returns is never empty.
    [filter_by_nl] answers either error with status 400 and the message of
    the error, and a parsed phrase with a result.  "xyzzy plugh" cannot be
    read. *)
Theorem parse_nl_query_unparseable (U : UnicodeData) :
  (forall q,
      parse_nl_query U q = Raise unparseable <->
      rule_fires U (lower U (strip U q)) = false) /\
  (forall q,
      match parse_nl_query U q with
      | Ok f =>
          filters_empty f = false /\
          rule_fires U (lower U (strip U q)) = true /\
          numerals_within_limit U (lower U (strip U q)) = true
      | Raise e =>
          (e = unparseable /\ rule_fires U (lower U (strip U q)) = false) \/
          (rule_fires U (lower U (strip U q)) = true /\
           numerals_within_limit U (lower U (strip U q)) = false /\
           exists n, (int_max_str_digits < n)%nat /\ e = int_limit_message n)
      end) /\
  (forall q,
      (exists f, parse_nl_query U q = Ok f) <->
      rule_fires U (lower U (strip U q)) = true /\
      numerals_within_limit U (lower U (strip U q)) = true) /\
  (forall db q e,
      parse_nl_query U q = Raise e <->
      filter_by_nl U db q = Raise {| status_code := 400; detail := e |}) /\
  (forall db q,
      (exists f, parse_nl_query U q = Ok f) <->
      (exists answer, filter_by_nl U db q = Ok answer)) /\
  parse_nl_query U (py "xyzzy plugh") = Raise unparseable /\
  (forall db, filter_by_nl U db (py "xyzzy plugh") = Raise parse_error).
Proof.
  split; [|split; [|split; [|split; [|split; [|split]]]]].
  - intros q. split.
    + intros H. apply parse_raise_cases in H. cbv zeta in H.
      destruct H as [(_ & H & _)|(_ & _ & n & _ & H)]; [exact H|].
      now apply unparseable_not_limit in H.
    + intros H. destruct (parse_nl_query U q) as [f|e] eqn:E.
      * apply parse_ok_fields in E. cbv zeta in E.
        destruct E as (E & _). congruence.
      * apply parse_raise_cases in E. cbv zeta in E.
        destruct E as [(-> & _)|(E & _)]; [reflexivity|congruence].
  - intros q. destruct (parse_nl_query U q) as [f|e] eqn:E.
    + apply parse_ok_fields in E. cbv zeta in E.
      destruct E as (H1 & H2 & _ & _ & _ & H3). repeat split; assumption.
    + apply parse_raise_cases in E. cbv zeta in E.
      destruct E as [(H1 & H2 & _)|H]; [left; now split|right; exact H].
  - intros q. split.
    + intros [f E]. apply parse_ok_fields in E. cbv zeta in E.
      destruct E as (H1 & _ & _ & _ & _ & H3). now split.
    + intros [Hr Hn]. now apply parse_returns.
  - intros db q e. unfold filter_by_nl.
    destruct (parse_nl_query U q) as [f|e']; split; try discriminate.
    + intros [= ->]. reflexivity.
    + intros [= ->]. reflexivity.
  - intros db q. unfold filter_by_nl.
    destruct (parse_nl_query U q) as [f|e]; split.
    + intros _. eexists. reflexivity.
    + intros _. now exists f.
    + intros [f H]. discriminate.
    + intros [answer H]. discriminate.
  - vm_compute. reflexivity.
  - intros db. vm_compute. reflexivity.
Qed.

Lemma parse_nl_query_unparseable_witness :
  parse_nl_query ascii_only (py "xyzzy plugh") = Raise unparseable.
Proof.
  apply (proj1 (parse_nl_query_unparseable ascii_only)).
  vm_compute. reflexivity.
Defined.

(** *** The phrase of the example, for every numeral *)

Lemma re_search_next (A : Type) (match_at : str -> option A) (c : codepoint) (s : str) :
  match_at (c :: s) = None -> re_search match_at (c :: s) = re_search match_at s.
Proof. intros H. simpl. now rewrite H. Qed.

Lemma re_search_here (A : Type) (match_at : str -> option A) (s : str) (r : A) :
  match_at s = Some r -> re_search match_at s = Some r.
Proof. intros H. destruct s; simpl; now rewrite H. Qed.

(** A search whose pattern cannot start at a digit skips a run of digits. *)
Lemma re_search_skip_digits (A : Type) (match_at : str -> option A) (g s : str) :
  (forall d rest, Ascii7.between 48 57 d = true -> match_at (d :: rest) = None) ->
  forallb (Ascii7.between 48 57) g = true ->
  re_search match_at (g ++ s) = re_search match_at s.
Proof.
  intros Hm. induction g as [|d g IH]; [reflexivity|].
  simpl forallb. intros H. apply andb_true_iff in H as [Hd Hg].
  change ((d :: g) ++ s) with (d :: g ++ s).
  rewrite re_search_next by now apply Hm. now apply IH.
Qed.

Lemma strip_prefix_at_digit (x d : codepoint) (p rest : str) :
  Ascii7.between 48 57 x = false ->
  Ascii7.between 48 57 d = true ->
  strip_prefix (x :: p) (d :: rest) = None.
Proof.
  intros Hx Hd. simpl. destruct (N.eqb_spec x d) as [->|]; [congruence|reflexivity].
Qed.

Lemma digit_is_ascii (d : codepoint) :
  Ascii7.between 48 57 d = true ->
  Ascii7.is_ascii d = true /\ Ascii7.lower d = d /\ Ascii7.decimal d <> None.
Proof.
  intros H. unfold Ascii7.is_ascii, Ascii7.lower, Ascii7.decimal. rewrite H.
  unfold Ascii7.between in *. apply andb_true_iff in H as [H1 H2].
  apply N.leb_le in H1, H2.
  destruct (N.ltb_spec d 128); [|lia].
  destruct (N.leb_spec 65 d); [|repeat split; discriminate].
  destruct (N.leb_spec d 90); [lia|]. repeat split; discriminate.
Qed.

Lemma span_digits (U : UnicodeData) (g s : str) :
  forallb (Ascii7.between 48 57) g = true ->
  match s with [] => True | c :: _ => isdigit U c = false end ->
  span (isdigit U) (g ++ s) = (g, s).
Proof.
  intros Hg Hs. induction g as [|d g IH]; simpl.
  - destruct s as [|c s]; [reflexivity|]. simpl. now rewrite Hs.
  - simpl in Hg. apply andb_true_iff in Hg as [Hd Hg].
    destruct (digit_is_ascii _ Hd) as (Ha & _ & Hdec).
    unfold isdigit at 1, decimal. rewrite Ha.
    destruct (Ascii7.decimal d); [|congruence]. now rewrite IH.
Qed.

Lemma strip_prefix_app (p s : str) : strip_prefix p (p ++ s) = Some s.
Proof.
  induction p as [|x p IH]; simpl; [reflexivity|]. now rewrite N.eqb_refl.
Qed.

Lemma match_longer_than_numeral (U : UnicodeData) (g s : str) :
  g <> [] ->
  forallb (Ascii7.between 48 57) g = true ->
  match s with [] => True | c :: _ => isdigit U c = false end ->
  match_longer_than U (py "longer than " ++ g ++ s) = Some (g, s).
Proof.
  intros Hne Hg Hs. unfold match_longer_than.
  rewrite strip_prefix_app, span_digits by assumption.
  destruct g; [congruence|reflexivity].
Qed.

(** The searches of [parse_nl_query] step over the characters that are
    written out, and over the numeral. *)
Ltac scan := repeat (rewrite re_search_next by reflexivity).

Ltac absent Hg :=
  unfold str_in; scan;
  rewrite re_search_skip_digits;
  [ reflexivity
  | intros ? ? ?; apply strip_prefix_at_digit; [reflexivity|assumption]
  | exact Hg ].

Lemma parse_longer_than_numeral (U : UnicodeData) (g : str) :
  g <> [] ->
  forallb (Ascii7.between 48 57) g = true ->
  parse_nl_query U (py "strings longer than " ++ g ++ py " characters")
  = if Nat.leb (List.length g) int_max_str_digits
    then Ok (only_min_length (decimal_value U g + 1))
    else Raise (int_limit_message (List.length g)).
Proof.
  intros Hne Hg.
  set (q := py "strings longer than " ++ g ++ py " characters").
  assert (strip U q = q) as Hstrip.
  { unfold strip.
    assert (forall l, dropwhile (isspace U) (115%N :: l) = 115%N :: l) as Hd
      by reflexivity.
    assert (exists l, q = 115%N :: l) as [l1 E1] by (eexists; reflexivity).
    assert (exists l, rev q = 115%N :: l) as [l2 E2].
    { unfold q. rewrite !rev_app_distr. eexists. reflexivity. }
    rewrite E1, Hd, <- E1, E2, Hd, <- E2. apply rev_involutive. }
  assert (lower U q = q) as Hlower.
  { unfold lower.
    assert (forallb Ascii7.is_ascii g = true /\ map Ascii7.lower g = g) as [Ha Hl].
    { clear Hne q Hstrip. induction g as [|d g IH]; [now split|].
      simpl in Hg. apply andb_true_iff in Hg as [Hd Hg].
      destruct (digit_is_ascii _ Hd) as (H1 & H2 & _).
      destruct (IH Hg) as [H3 H4]. simpl. now rewrite H1, H2, H3, H4. }
    unfold q. rewrite !forallb_app, Ha, !map_app, Hl. reflexivity. }
  assert (match_longer_than U (py "longer than " ++ g ++ py " characters")
          = Some (g, py " characters")) as Hhead
    by now apply match_longer_than_numeral.
  unfold parse_nl_query. rewrite Hstrip, Hlower.
  let A := eval vm_compute in (py "strings longer than ") in
  assert (q = A ++ g ++ py " characters") as Eq by reflexivity.
  cbn [app] in Eq. rewrite Eq. clear Eq Hstrip Hlower q.
  repeat match goal with
         | |- context [str_in ?n ?s] =>
             let H := fresh in
             assert (str_in n s = false) as H by absent Hg; rewrite H; clear H
         end.
  match goal with
  | |- context [re_search (match_containing_the_letter U) ?s] =>
      assert (re_search (match_containing_the_letter U) s = None) as ->
  end.
  { scan. rewrite re_search_skip_digits; [reflexivity| |exact Hg].
    intros d rest Hd. unfold match_containing_the_letter.
    assert (strip_prefix (py "containing the letter ") (d :: rest) = None) as E
      by (apply strip_prefix_at_digit; [reflexivity|assumption]).
    now rewrite E. }
  match goal with
  | |- context [re_search (match_longer_than_characters U) ?s] =>
      assert (re_search (match_longer_than_characters U) s = Some g) as ->
  end.
  { scan. apply re_search_here. unfold match_longer_than_characters.
    change (match_longer_than U _)
      with (match_longer_than U (py "longer than " ++ g ++ py " characters")).
    rewrite Hhead. reflexivity. }
  match goal with
  | |- context [re_search ?f ?s] => assert (re_search f s = Some g) as ->
  end.
  { scan. apply re_search_here.
    change (match_longer_than U _)
      with (match_longer_than U (py "longer than " ++ g ++ py " characters")).
    rewrite Hhead. reflexivity. }
  unfold py_int. destruct (Nat.leb (List.length g) int_max_str_digits); reflexivity.
Qed.




(** *** The leftmost match, and the longest numeral *)
















(** * Further properties of the handlers and their helpers *)

(** ** The table helpers *)

Lemma existsb_false_find (A : Type) (f : A -> bool) (l : list A) :
  existsb f l = false -> find f l = None.
Proof.
  induction l as [|x l IH]; simpl; [reflexivity|].
  destruct (f x); [discriminate|]. exact IH.
Qed.

Lemma existsb_true_find (A : Type) (f : A -> bool) (l : list A) :
  existsb f l = true -> exists x, find f l = Some x.
Proof.
  induction l as [|x l IH]; simpl; [discriminate|].
  destruct (f x); [now exists x|]. exact IH.
Qed.

(** X1. [db_insert] raises IntegrityError exactly when a row of that id is
    there.  Otherwise the new row goes to the end of the enumeration, is
    found under its id, and every other id is looked up as before. *)
Theorem db_insert_then_get (db : table) (id_ value : str)
    (properties : StringProperties) (created_at : str) :
  let row := {| r_id := id_; r_value := value;
                r_properties := properties; r_created_at := created_at |} in
  match db_insert db id_ value properties created_at with
  | None => exists r, db_get_by_id db id_ = Some r
  | Some db' =>
      db_get_by_id db id_ = None /\
      db_query_all db' = db_query_all db ++ [row] /\
      db_get_by_id db' id_ = Some row /\
      forall k, k <> id_ -> db_get_by_id db' k = db_get_by_id db k
  end.
Proof.
  intros row. unfold db_insert, db_get_by_id, db_query_all.
  destruct (existsb _ db) eqn:E.
  - now apply existsb_true_find.
  - apply existsb_false_find in E. fold row. repeat split.
    + exact E.
    + rewrite find_app, E. simpl. now rewrite str_eqb_refl.
    + intros k Hk. rewrite find_app.
      destruct (find (fun r => str_eqb (r_id r) k) db); [reflexivity|]. simpl.
      assert (str_eqb id_ k = false) as -> by (apply str_eqb_neq; congruence).
      reflexivity.
Qed.

(** ** Creating *)

(** X2. The answers of [create_string] in a run of its own, where no other
    request writes the table between its duplicate check and its INSERT
    and the INSERT fails on the primary key only: 422 for a value that is
    not a string, the framework's 500 for a text UTF-8 cannot encode, 409
    when the hash is stored, and otherwise the new record, appended to the
    table; only the last changes the table.  (The handler's own 500,
    "Failed to persist string", answers an INSERT that fails after the
    check passed, which such a run does not have.) *)
Theorem create_string_outcomes (U : UnicodeData) (now : str) (db : table)
    (req : CreateStringRequest) :
  let result := create_string U now db req in
  match value req with
  | AnyOther => result = (Raise not_a_string, db)
  | AnyStr v =>
      match compute_sha256 v with
      | None =>
          forallb scalar_value v = false /\
          result = (Raise internal_server_error, db)
      | Some h =>
          match db_get_by_id db h with
          | Some _ => result = (Raise conflict, db)
          | None =>
              exists props,
                analyze_string U v = Some props /\
                p_sha256_hash props = h /\
                let rec := {| r_id := h; r_value := v;
                              r_properties := props; r_created_at := now |} in
                result = (Ok rec, db ++ [rec])
          end
      end
  end.
Proof.
  intros result. unfold result, create_string.
  destruct (value req) as [v|]; [|reflexivity].
  destruct (compute_sha256 v) as [h|] eqn:Eh.
  - destruct (analyze_string_of_sha U v Eh) as (p & Ea & Ep).
    rewrite Ea, Ep.
    destruct (db_get_by_id db h) eqn:Eg; [reflexivity|].
    unfold db_insert. unfold db_get_by_id in Eg.
    rewrite (find_none_existsb _ _ Eg).
    exists p. repeat split; assumption.
  - assert (analyze_string U v = None) as Ea
      by (unfold analyze_string; now rewrite Eh).
    rewrite Ea. split; [|reflexivity].
    destruct (forallb scalar_value v) eqn:Es; [|reflexivity].
    apply compute_sha256_total in Es. congruence.
Qed.

Lemma create_string_table (U : UnicodeData) (now : str) (db : table)
    (req : CreateStringRequest) :
  snd (create_string U now db req) = db \/
  exists rec, create_string U now db req = (Ok rec, db ++ [rec]).
Proof.
  destruct (create_string U now db req) as [[rec|e] db'] eqn:E; simpl.
  - right. exists rec.
    apply create_string_ok in E as (_ & _ & _ & _ & _ & _ & ->). reflexivity.
  - left. now apply create_string_raise in E.
Qed.

(** X3. A create never changes what an identifier already resolves to, and
    the rows that were there stay where they were in the enumeration. *)
Theorem create_string_keeps_rows (U : UnicodeData) (now : str) (db : table)
    (req : CreateStringRequest) (s : str) (r : StringResponse) :
  get_string db s = Ok r ->
  get_string (snd (create_string U now db req)) s = Ok r /\
  firstn (List.length db) (db_query_all (snd (create_string U now db req)))
  = db_query_all db.
Proof.
  intros Hget. destruct (create_string_table U now db req) as [->|[rec ->]].
  - split; [exact Hget|]. apply firstn_all.
  - simpl snd. unfold db_query_all. split.
    + unfold get_string, db_get_by_id, db_get_by_value in *.
      rewrite !find_app.
      destruct (is_sha256_hex s).
      * destruct (find _ db); [exact Hget|discriminate].
      * destruct (find _ db); [exact Hget|discriminate].
    + rewrite firstn_app, firstn_all, Nat.sub_diag. simpl. apply app_nil_r.
Qed.

Lemma create_string_keeps_rows_witness :
  let db := [level_record []] in
  let db' := snd (create_string ascii_only [] db {| value := AnyStr (py "noon") |}) in
  get_string db' (py "level") = Ok (level_record []) /\
  firstn (List.length db) (db_query_all db') = db_query_all db.
Proof.
  intros db db'. apply create_string_keeps_rows.
  vm_compute. reflexivity.
Defined.

(** X4. Deleting what was just created gives the table back: by the id of
    the new record always, and by its value when the table keeps the
    invariant and the value has not the shape of an id. *)
Theorem create_then_delete (U : UnicodeData) (now : str) (db db' : table)
    (req : CreateStringRequest) (rec : StringResponse) :
  create_string U now db req = (Ok rec, db') ->
  delete_string db' (r_id rec) = (Ok tt, db) /\
  (store_ok db -> is_sha256_hex (r_value rec) = false ->
   delete_string db' (r_value rec) = (Ok tt, db)).
Proof.
  intros Hc.
  pose proof (@create_string_store_ok U now db req) as Hinv.
  rewrite Hc in Hinv. simpl in Hinv.
  apply create_string_ok in Hc as (v & props & _ & Ea & Erec & Eg & Edb).
  assert (is_sha256_hex (r_id rec) = true) as Hid.
  { rewrite Erec. simpl. apply compute_sha256_hex with (v := v).
    now apply analyze_string_sha with (U := U). }
  assert (db_delete_by_id db' (r_id rec) = (1%Z, db)) as Hdel.
  { unfold db_delete_by_id. rewrite Edb, !filter_app.
    assert (r_id rec = p_sha256_hash props) as -> by now rewrite Erec.
    unfold db_get_by_id in Eg.
    rewrite (find_none_filter _ _ Eg), (find_none_filter_neg _ _ Eg).
    simpl. assert (r_id rec = p_sha256_hash props) as -> by now rewrite Erec.
    rewrite str_eqb_refl. simpl. now rewrite app_nil_r. }
  split.
  - unfold delete_string. now rewrite Hid, Hdel.
  - intros Hok Hv. unfold delete_string. rewrite Hv.
    assert (In rec db') as Hin by (rewrite Edb; apply in_or_app; right; now left).
    rewrite (@store_ok_get_by_value db' rec (Hinv Hok) Hin). now rewrite Hdel.
Qed.

Lemma create_then_delete_witness :
  delete_string [level_record []] (r_id (level_record [])) = (Ok tt, init_db) /\
  (store_ok init_db -> is_sha256_hex (r_value (level_record [])) = false ->
   delete_string [level_record []] (r_value (level_record [])) = (Ok tt, init_db)).
Proof.
  apply (@create_then_delete ascii_only [] init_db [level_record []]
           level_request (level_record [])).
  vm_compute. reflexivity.
Defined.

(** ** Deleting *)

Lemma find_filter_keep (A : Type) (f g : A -> bool) (l : list A) (r : A) :
  find f l = Some r -> g r = true -> find f (filter g l) = Some r.
Proof.
  induction l as [|x l IH]; simpl; [discriminate|].
  destruct (f x) eqn:Ef.
  - intros [= ->] Hg. rewrite Hg. simpl. now rewrite Ef.
  - intros Hr Hg. destruct (g x); simpl; [rewrite Ef|]; now apply IH.
Qed.

Lemma filter_split_length (A : Type) (f : A -> bool) (l : list A) :
  List.length l
  = (List.length (filter f l) + List.length (filter (fun x => negb (f x)) l))%nat.
Proof.
  induction l as [|x l IH]; simpl; [reflexivity|].
  destruct (f x); simpl; lia.
Qed.

(** Under a primary key at most one row has a given id. *)
Lemma one_row_per_id (db : table) (h : str) :
  NoDup (map r_id db) ->
  (List.length (filter (fun r => str_eqb (r_id r) h) db) <= 1)%nat.
Proof.
  induction db as [|x db IH]; simpl; [lia|].
  intros Hnd. inversion Hnd as [|? ? Hx Hdb]; subst.
  destruct (str_eqb (r_id x) h) eqn:E; [|now apply IH].
  apply str_eqb_eq in E. simpl.
  assert (filter (fun r => str_eqb (r_id r) h) db = []) as ->; [|simpl; lia].
  apply find_none_filter.
  destruct (find _ db) as [r|] eqn:Er; [|reflexivity].
  exfalso. apply find_some in Er as [Hin Ei]. apply str_eqb_eq in Ei.
  apply Hx. rewrite E, <- Ei. now apply in_map.
Qed.

Lemma db_delete_by_id_present (db : table) (item : StringResponse) :
  In item db ->
  exists changes,
    db_delete_by_id db (r_id item)
    = (changes, filter (fun r => negb (str_eqb (r_id r) (r_id item))) db) /\
    Z.eqb changes 0 = false.
Proof.
  intros Hin. unfold db_delete_by_id. eexists. split; [reflexivity|].
  apply Z.eqb_neq.
  assert (In item (filter (fun r => str_eqb (r_id r) (r_id item)) db)) as H
    by (apply filter_In; split; [assumption|apply str_eqb_refl]).
  destruct (filter _ db); [contradiction|]. simpl List.length. lia.
Qed.

(** A delete only ever drops rows. *)
Lemma delete_string_table (db : table) (s : str) :
  exists f, snd (delete_string db s) = filter f db.
Proof.
  assert (db = filter (fun _ => true) db) as Hall.
  { clear s. induction db as [|x db IH]; simpl; congruence. }
  unfold delete_string. destruct (is_sha256_hex s).
  - unfold db_delete_by_id. destruct (Z.eqb _ 0); eexists; reflexivity.
  - destruct (db_get_by_value db s) as [item|].
    + unfold db_delete_by_id. destruct (Z.eqb _ 0); eexists; reflexivity.
    + exists (fun _ => true). exact Hall.
Qed.

(** X5. [delete_string] in a run of its own, where no other request writes
    the table between its lookup by value and its DELETE: it answers 404,
    the table unchanged, when its identifier resolves to no row, and
    otherwise succeeds, removes the rows of that id and no other, one row
    when ids are unique, and every identifier that resolved to another row
    still does. *)
Theorem delete_string_outcomes (db : table) (s : str) :
  match (if is_sha256_hex s then db_get_by_id db s else db_get_by_value db s) with
  | None => delete_string db s = (Raise not_found, db)
  | Some item =>
      let db' := filter (fun r => negb (str_eqb (r_id r) (r_id item))) db in
      delete_string db s = (Ok tt, db') /\
      (NoDup (map r_id db) -> List.length db = S (List.length db')) /\
      (forall s' r, get_string db s' = Ok r -> r_id r <> r_id item ->
                    get_string db' s' = Ok r)
  end.
Proof.
  assert (forall item, In item db ->
            let db' := filter (fun r => negb (str_eqb (r_id r) (r_id item))) db in
            (NoDup (map r_id db) -> List.length db = S (List.length db')) /\
            (forall s' r, get_string db s' = Ok r -> r_id r <> r_id item ->
                          get_string db' s' = Ok r)) as Hrest.
  { intros item Hin db'. split.
    - intros Hnd.
      pose proof (filter_split_length (fun r => str_eqb (r_id r) (r_id item)) db) as Hl.
      pose proof (@one_row_per_id db (r_id item) Hnd) as H1. cbv beta in Hl.
      assert (In item (filter (fun r => str_eqb (r_id r) (r_id item)) db)) as H
        by (apply filter_In; split; [assumption|apply str_eqb_refl]).
      destruct (filter (fun r => str_eqb (r_id r) (r_id item)) db) as [|y [|z t]];
        [contradiction| |simpl in H1; lia].
      simpl in Hl. unfold db'. lia.
    - intros s' r Hget Hne.
      assert (negb (str_eqb (r_id r) (r_id item)) = true) as Hkeep
        by (apply negb_true_iff, str_eqb_neq; assumption).
      unfold get_string, db_get_by_id, db_get_by_value in *.
      destruct (is_sha256_hex s').
      + destruct (find _ db) as [r0|] eqn:E; [|discriminate].
        injection Hget as ->. unfold db'.
        now rewrite (find_filter_keep _ _ _ E Hkeep).
      + destruct (find _ db) as [r0|] eqn:E; [|discriminate].
        injection Hget as ->. unfold db'.
        now rewrite (find_filter_keep _ _ _ E Hkeep). }
  unfold delete_string. destruct (is_sha256_hex s).
  - destruct (db_get_by_id db s) as [item|] eqn:E.
    + apply find_some in E as [Hin Ei]. apply str_eqb_eq in Ei. subst s.
      destruct (db_delete_by_id_present db item Hin) as (changes & -> & ->).
      split; [reflexivity|]. now apply Hrest.
    + now rewrite (db_delete_by_id_absent _ _ E).
  - destruct (db_get_by_value db s) as [item|] eqn:E; [|reflexivity].
    apply find_some in E as [Hin _].
    destruct (db_delete_by_id_present db item Hin) as (changes & -> & ->).
    split; [reflexivity|]. now apply Hrest.
Qed.

(** X6. On a table that keeps the invariant, a value that was deleted can
    be created again at once: the create succeeds and appends the record. *)
Theorem delete_then_create (U : UnicodeData) (now : str) (db db' : table) (v : str) :
  store_ok db ->
  is_sha256_hex v = false ->
  delete_string db v = (Ok tt, db') ->
  exists rec,
    create_string U now db' {| value := AnyStr v |} = (Ok rec, db' ++ [rec]) /\
    r_value rec = v.
Proof.
  intros [Hnd Hsha] Hv Hd. unfold delete_string in Hd. rewrite Hv in Hd.
  destruct (db_get_by_value db v) as [item|] eqn:Ei; [|discriminate].
  apply find_some in Ei as [Hin Eval]. apply str_eqb_eq in Eval.
  rewrite Forall_forall in Hsha. pose proof (Hsha _ Hin) as Hitem.
  rewrite Eval in Hitem.
  destruct (db_delete_by_id_present db item Hin) as (changes & E & Hc).
  rewrite E, Hc in Hd. injection Hd as <-.
  destruct (analyze_string_of_sha U v Hitem) as (p & Ea & Ep).
  unfold create_string. simpl. rewrite Ea, Ep.
  unfold db_get_by_id, db_insert.
  rewrite find_filter_neg, (find_none_existsb _ _ (find_filter_neg _ _)).
  eexists. split; reflexivity.
Qed.

Lemma delete_then_create_witness :
  exists rec,
    create_string ascii_only [] init_db level_request = (Ok rec, init_db ++ [rec]) /\
    r_value rec = py "level".
Proof.
  apply (@delete_then_create ascii_only [] [level_record []] init_db (py "level")).
  - split.
    + apply NoDup_cons; [intros []|apply NoDup_nil].
    + apply Forall_cons; [vm_compute; reflexivity|apply Forall_nil].
  - vm_compute. reflexivity.
  - vm_compute. reflexivity.
Defined.

(** ** Looking up *)

Lemma compute_sha256_lower (v h : str) :
  compute_sha256 v = Some h -> forallb Ascii7.islowerhex h = true.
Proof.
  unfold compute_sha256. destruct (Utf8.encode v); [|discriminate].
  intros [= <-]. apply hexdigest_lower.
Qed.

(** X7. [is_sha256_hex] takes the digits A-F in either case, the table
    compares ids as they are, and the ids are lowercase: on a table that
    keeps the invariant an identifier of 64 hexadecimal digits with a
    capital among them finds nothing, for get and for delete. *)
Theorem capital_hex_id_not_found (db : table) (s : str) :
  store_ok db ->
  is_sha256_hex s = true ->
  existsb (Ascii7.between 65 70) s = true ->
  get_string db s = Raise not_found /\
  delete_string db s = (Raise not_found, db).
Proof.
  intros [_ Hsha] Hs Hup.
  assert (db_get_by_id db s = None) as Hnone.
  { unfold db_get_by_id. destruct (find _ db) as [r|] eqn:E; [|reflexivity].
    exfalso. apply find_some in E as [Hin Ei]. apply str_eqb_eq in Ei.
    rewrite Forall_forall in Hsha. pose proof (Hsha _ Hin) as Hr.
    rewrite Ei in Hr. apply compute_sha256_lower in Hr.
    apply existsb_exists in Hup as [c [Hc Hcap]].
    rewrite forallb_forall in Hr. specialize (Hr _ Hc).
    unfold Ascii7.islowerhex, Ascii7.between in *.
    apply andb_true_iff in Hcap as [H1 H2]. apply N.leb_le in H1, H2.
    apply orb_true_iff in Hr as [Hr|Hr];
      apply andb_true_iff in Hr as [H3 H4]; apply N.leb_le in H3, H4; lia. }
  split.
  - unfold get_string. now rewrite Hs, Hnone.
  - unfold delete_string. now rewrite Hs, (db_delete_by_id_absent _ _ Hnone).
Qed.

Lemma capital_hex_id_not_found_witness :
  let capitals :=
    map (fun c => if Ascii7.between 97 102 c then (c - 32)%N else c) level_id in
  get_string [level_record []] capitals = Raise not_found /\
  delete_string [level_record []] capitals = (Raise not_found, [level_record []]).
Proof.
  intros capitals. apply capital_hex_id_not_found.
  - split.
    + apply NoDup_cons; [intros []|apply NoDup_nil].
    + apply Forall_cons; [vm_compute; reflexivity|apply Forall_nil].
  - vm_compute. reflexivity.
  - vm_compute. reflexivity.
Defined.

(** X8. On a table that keeps the invariant, the row a lookup by value
    finds is the row a lookup by the hash of that value finds. *)
Theorem get_by_value_is_get_by_hash (db : table) (v : str) (r : StringResponse) :
  store_ok db ->
  db_get_by_value db v = Some r ->
  r_value r = v /\
  compute_sha256 v = Some (r_id r) /\
  db_get_by_id db (r_id r) = Some r /\
  get_string db (r_id r) = Ok r.
Proof.
  intros Hok Hv. pose proof Hok as [_ Hsha].
  apply find_some in Hv as [Hin Ev]. apply str_eqb_eq in Ev.
  rewrite Forall_forall in Hsha. pose proof (Hsha _ Hin) as Hr.
  pose proof (@store_ok_get_by_id db r Hok Hin) as Hid.
  repeat split; try assumption.
  - now rewrite <- Ev.
  - unfold get_string. rewrite (compute_sha256_hex _ Hr). now rewrite Hid.
Qed.

Lemma get_by_value_is_get_by_hash_witness :
  r_value (level_record []) = py "level" /\
  compute_sha256 (py "level") = Some (r_id (level_record [])) /\
  db_get_by_id [level_record []] (r_id (level_record [])) = Some (level_record []) /\
  get_string [level_record []] (r_id (level_record [])) = Ok (level_record []).
Proof.
  apply get_by_value_is_get_by_hash.
  - split.
    + apply NoDup_cons; [intros []|apply NoDup_nil].
    + apply Forall_cons; [vm_compute; reflexivity|apply Forall_nil].
  - vm_compute. reflexivity.
Defined.

(** ** The tables the service can be in *)

Lemma reachable_analysed (U : UnicodeData) (db : table) :
  reachable U db -> Forall (row_analysed U) db.
Proof.
  induction 1 as [|now db req Hr IH|db s Hr IH].
  - constructor.
  - destruct (create_string_table U now db req) as [->|[rec E]]; [exact IH|].
    rewrite E. simpl. apply Forall_app. split; [exact IH|].
    apply create_string_ok in E as (v & props & _ & Ea & -> & _ & _).
    repeat constructor; assumption.
  - destruct (delete_string_table db s) as [f ->]. now apply Forall_filter.
Qed.

(** X9. Every table the endpoints can produce from the empty one holds, in
    each row, the analysis of the row's value under the hash of it, has no
    id twice and no value twice. *)
Theorem reachable_tables (U : UnicodeData) (db : table) :
  reachable U db ->
  Forall (row_analysed U) db /\
  NoDup (map r_id db) /\
  NoDup (map r_value db).
Proof.
  intros H. split; [now apply reachable_analysed|].
  pose proof (reachable_store_ok H) as Hok.
  split; [apply Hok|now apply store_ok_values].
Qed.

Lemma reachable_level (now : str) : reachable ascii_only [level_record now].
Proof.
  assert (snd (create_string ascii_only now init_db level_request)
          = [level_record now]) as <- by (vm_compute; reflexivity).
  apply reach_create, reach_init.
Defined.

Lemma reachable_tables_witness :
  Forall (row_analysed ascii_only) [level_record []] /\
  NoDup (map r_id [level_record []]) /\
  NoDup (map r_value [level_record []]).
Proof.
  apply reachable_tables. apply reachable_level.
Defined.

(** ** Words *)

Section Words.
Context (U : UnicodeData).

Lemma split_from_tokens (cur s : str) :
  forallb (visible U) cur = true ->
  Forall (fun w => w <> [] /\ forallb (visible U) w = true) (split_from U cur s) /\
  List.concat (split_from U cur s) = rev cur ++ filter (visible U) s.
Proof.
  assert (forall x cur, forallb (visible U) (x :: cur) = true ->
            rev (x :: cur) <> [] /\ forallb (visible U) (rev (x :: cur)) = true)
    as Hrev.
  { intros x l Hl. split.
    - intros E. apply (f_equal (@List.length _)) in E.
      rewrite length_rev in E. discriminate.
    - apply forallb_forall. intros y Hy. apply in_rev in Hy.
      revert y Hy. now apply forallb_forall. }
  revert cur. induction s as [|c s IH]; intros cur Hcur.
  - cbn [split_from filter]. rewrite app_nil_r.
    destruct cur as [|x cur]; [split; [constructor|reflexivity]|].
    split; [|cbn [List.concat]; now rewrite app_nil_r].
    constructor; [now apply Hrev|constructor].
  - cbn [split_from filter].
    assert (visible U c = negb (isspace U c)) as Hvc by reflexivity.
    destruct (isspace U c) eqn:Ec; cbn [negb] in Hvc; rewrite Hvc.
    + destruct (IH [] eq_refl) as [Hf Hc]. cbn [rev app] in Hc.
      destruct cur as [|x cur]; [split; assumption|]. split.
      * constructor; [now apply Hrev|assumption].
      * cbn [List.concat]. now rewrite Hc.
    + assert (forallb (visible U) (c :: cur) = true) as Hcur'
        by (cbn [forallb]; now rewrite Hvc, Hcur).
      destruct (IH (c :: cur) Hcur') as [Hf Hc]. split; [assumption|].
      rewrite Hc. cbn [rev]. now rewrite <- app_assoc.
Qed.

Lemma split_from_count (cur s : str) :
  (2 * List.length (split_from U cur s)
   <= List.length s + match cur with [] => 1 | _ => 2 end)%nat.
Proof.
  revert cur. induction s as [|c s IH]; intros cur.
  - destruct cur; simpl; lia.
  - simpl split_from. destruct (isspace U c).
    + pose proof (IH []) as H. destruct cur; simpl in *; lia.
    + pose proof (IH (c :: cur)) as H. destruct cur; simpl in *; lia.
Qed.

Lemma split_from_nil (cur s : str) :
  split_from U cur s = [] <-> cur = [] /\ forallb (isspace U) s = true.
Proof.
  revert cur. induction s as [|c s IH]; intros cur.
  - simpl. destruct cur; split; try tauto; try discriminate.
    intros [E _]. discriminate.
  - simpl. destruct (isspace U c); simpl.
    + destruct cur as [|x cur]; [apply IH|].
      split; [discriminate|intros [E _]; discriminate].
    + rewrite IH. split; [intros [E _]; discriminate|intros [_ E]; discriminate].
Qed.

Lemma split_from_gap (gap s : str) :
  forallb (isspace U) gap = true -> split_from U [] (gap ++ s) = split_from U [] s.
Proof.
  induction gap as [|c gap IH]; [reflexivity|].
  cbn [forallb app split_from]. intros H. apply andb_prop in H as [Hc Hg].
  rewrite Hc. now apply IH.
Qed.

Lemma split_from_word (cur w s : str) :
  forallb (visible U) w = true ->
  split_from U cur (w ++ s) = split_from U (rev w ++ cur) s.
Proof.
  revert cur. induction w as [|c w IH]; intros cur H; [reflexivity|].
  cbn [forallb] in H. apply andb_prop in H as [Hc Hw].
  unfold visible in Hc. apply negb_true_iff in Hc.
  cbn [app split_from rev]. rewrite Hc, (IH _ Hw), <- app_assoc. reflexivity.
Qed.

Lemma split_from_end (cur rest : str) :
  cur <> [] -> word_end U rest ->
  split_from U cur rest = rev cur :: split_from U [] rest.
Proof.
  intros Hcur Hend. destruct cur as [|x cur]; [contradiction|].
  destruct rest as [|c rest]; [reflexivity|].
  cbn [word_end] in Hend. cbn [split_from]. now rewrite Hend.
Qed.

(** The word being read runs on to the next whitespace or to the end. *)
Lemma split_from_reads (s cur : str) :
  cur <> [] ->
  exists w rest,
    s = w ++ rest /\ forallb (visible U) w = true /\ word_end U rest /\
    split_from U cur s = (rev cur ++ w) :: split_from U [] rest.
Proof.
  revert cur. induction s as [|c s IH]; intros cur Hcur.
  - exists [], []. rewrite (app_nil_r (rev cur)).
    destruct cur; [contradiction|]. repeat split.
  - destruct (isspace U c) eqn:Ec.
    + exists [], (c :: s). rewrite (app_nil_r (rev cur)).
      split; [reflexivity|]. split; [reflexivity|]. split; [exact Ec|].
      cbn [split_from]. rewrite Ec. destruct cur; [contradiction|reflexivity].
    + destruct (IH (c :: cur)) as (w & rest & -> & Hw & Hend & Hs); [discriminate|].
      exists (c :: w), rest. split; [reflexivity|]. split.
      * cbn [forallb]. unfold visible at 1. now rewrite Ec, Hw.
      * split; [exact Hend|]. cbn [split_from]. rewrite Ec, Hs.
        cbn [rev]. now rewrite <- app_assoc.
Qed.

Lemma word_runs_gap (c : codepoint) (s : str) (ws : list str) :
  isspace U c = true -> word_runs U s ws -> word_runs U (c :: s) ws.
Proof.
  intros Hc H. destruct H as [gap Hg|gap w rest ws Hg Hn Hw He Hr].
  - apply runs_none. cbn [forallb]. now rewrite Hc, Hg.
  - change (c :: gap ++ w ++ rest) with ((c :: gap) ++ w ++ rest).
    apply runs_word; try assumption. cbn [forallb]. now rewrite Hc, Hg.
Qed.

Lemma split_runs (s : str) : word_runs U s (split U s).
Proof.
  unfold split.
  assert (forall n s, (List.length s <= n)%nat -> word_runs U s (split_from U [] s)) as H.
  { clear s. induction n as [|n IH]; intros s Hn.
    - destruct s; [|simpl in Hn; lia]. now apply runs_none.
    - destruct s as [|c s]; [now apply runs_none|].
      simpl in Hn. cbn [split_from]. destruct (isspace U c) eqn:Ec.
      + apply word_runs_gap; [exact Ec|]. apply IH. lia.
      + destruct (@split_from_reads s [c]) as (w & rest & -> & Hw & Hend & ->);
          [discriminate|].
        change (c :: w ++ rest) with ([] ++ (c :: w) ++ rest).
        apply runs_word; try assumption; try reflexivity; try discriminate.
        * cbn [rev app forallb]. unfold visible at 1. now rewrite Ec, Hw.
        * apply IH. rewrite length_app in Hn. lia. }
  now apply (H (List.length s)).
Qed.

Lemma word_runs_split (s : str) (ws : list str) :
  word_runs U s ws -> ws = split U s.
Proof.
  unfold split. intros H.
  induction H as [gap Hg|gap w rest ws Hg Hn Hw He Hr IH].
  - symmetry. now apply split_from_nil.
  - rewrite (@split_from_gap gap _ Hg), (@split_from_word _ w _ Hw), split_from_end.
    + now rewrite app_nil_r, rev_involutive, <- IH.
    + rewrite app_nil_r. intros E. apply (f_equal (@rev _)) in E.
      rewrite rev_involutive in E. contradiction.
    + exact He.
Qed.

(** X10. The word count is the number of maximal runs of characters that
    are not whitespace.  The words [split] gives are these runs, and no
    other list of words is: each is not empty, holds no whitespace, is
    preceded by whitespace or the start of the text and followed by
    whitespace or its end, and only whitespace lies between and around
    them.  So the count is 0 exactly for a text of whitespace only (the
    empty one too), it is at most half the length rounded up, and the
    words put together are the text without its whitespace. *)
Theorem analyze_string_word_count (v : str) (p : StringProperties) :
  analyze_string U v = Some p ->
  p_word_count p = Z.of_nat (List.length (split U v)) /\
  (p_word_count p = 0%Z <-> forallb (isspace U) v = true) /\
  (2 * p_word_count p <= p_length p + 1)%Z /\
  Forall (fun w => w <> [] /\ forallb (fun c => negb (isspace U c)) w = true)
         (split U v) /\
  List.concat (split U v) = filter (fun c => negb (isspace U c)) v /\
  word_runs U v (split U v) /\
  (forall ws, word_runs U v ws ->
              ws = split U v /\ p_word_count p = Z.of_nat (List.length ws)).
Proof.
  intros Ha. unfold analyze_string in Ha.
  destruct (compute_sha256 v); [|discriminate]. injection Ha as <-.
  cbn [p_word_count p_length].
  destruct (split_from_tokens [] v eq_refl) as [Hf Hc].
  pose proof (split_from_count [] v) as Hn. cbv iota in Hn.
  pose proof (split_from_nil [] v) as Hz.
  split; [reflexivity|]. split.
  { unfold split. split.
    - intros H. apply Hz.
      destruct (split_from U [] v); [reflexivity|discriminate].
    - intros H. destruct Hz as [_ Hz]. now rewrite Hz. }
  split; [unfold split; lia|].
  split; [exact Hf|]. split; [exact Hc|].
  split; [apply split_runs|].
  intros ws Hws. apply word_runs_split in Hws. subst ws. split; reflexivity.
Qed.

End Words.

Lemma analyze_string_word_count_witness :
  let v := py "hello  world " in
  let p := {| p_length := 13; p_is_palindrome := false; p_unique_characters := 8;
              p_word_count := 2;
              p_sha256_hash :=
                py "e19a18a133fb956577a9d80ceb572784a2d1adff90171f183325405912e7536f";
              p_character_frequency_map :=
                [(py "h", 1%Z); (py "e", 1%Z); (py "l", 3%Z); (py "o", 2%Z);
                 (py " ", 3%Z); (py "w", 1%Z); (py "r", 1%Z); (py "d", 1%Z)] |} in
  split ascii_only v = [py "hello"; py "world"] /\
  word_runs ascii_only v [py "hello"; py "world"] /\
  (forall ws, word_runs ascii_only v ws ->
              ws = split ascii_only v /\ p_word_count p = Z.of_nat (List.length ws)).
Proof.
  intros v p.
  assert (analyze_string ascii_only v = Some p) as Ha by (vm_compute; reflexivity).
  split; [vm_compute; reflexivity|].
  pose proof (@analyze_string_word_count ascii_only v p Ha)
    as (_ & _ & _ & _ & _ & Hr & Hu).
  split; [exact Hr|exact Hu].
Defined.

(** ** Frequencies *)

Lemma dict_get_set (A : Type) (d : list (str * A)) (k k' : str) (v default : A) :
  dict_get (dict_set d k v) k' default
  = if str_eqb k k' then v else dict_get d k' default.
Proof.
  induction d as [|[k0 v0] d IH]; simpl; [reflexivity|].
  destruct (str_eqb k0 k) eqn:E0; simpl.
  - apply str_eqb_eq in E0. subst k0. now destruct (str_eqb k k').
  - rewrite IH. destruct (str_eqb k0 k') eqn:E1; [|reflexivity].
    apply str_eqb_eq in E1. subst k'. now rewrite (proj2 (str_eqb_neq k k0))
      by (intros ->; rewrite str_eqb_refl in E0; discriminate).
Qed.

Lemma dict_set_keys (A : Type) (d : list (str * A)) (k : str) (v : A) :
  map fst (dict_set d k v)
  = if dict_in k d then map fst d else map fst d ++ [k].
Proof.
  unfold dict_in. induction d as [|[k0 v0] d IH]; simpl; [reflexivity|].
  destruct (str_eqb k0 k) eqn:E0; simpl; [reflexivity|].
  rewrite IH. now destruct (existsb _ d).
Qed.

Lemma dict_in_keys (A : Type) (d : list (str * A)) (k : str) :
  dict_in k d = true <-> In k (map fst d).
Proof.
  unfold dict_in. rewrite existsb_exists, in_map_iff. split.
  - intros [kv [Hin E]]. apply str_eqb_eq in E. now exists kv.
  - intros [kv [E Hin]]. exists kv. split; [assumption|].
    rewrite E. apply str_eqb_refl.
Qed.

Lemma freq_count (s : str) (d : list (str * Z)) (c : codepoint) :
  dict_get (fold_left freq_step s d) [c] 0%Z
  = (dict_get d [c] 0 + Z.of_nat (count_occ N.eq_dec s c))%Z.
Proof.
  revert d. induction s as [|x s IH]; intros d.
  - simpl. lia.
  - cbn [fold_left count_occ]. rewrite IH. unfold freq_step.
    rewrite dict_get_set. cbn [str_eqb]. rewrite andb_true_r.
    destruct (N.eq_dec x c) as [->|Hne].
    + rewrite N.eqb_refl. lia.
    + rewrite (proj2 (N.eqb_neq x c) Hne). lia.
Qed.

Lemma freq_keys (s : str) (d : list (str * Z)) :
  NoDup (map fst d) ->
  NoDup (map fst (fold_left freq_step s d)) /\
  forall k, In k (map fst (fold_left freq_step s d)) <->
            In k (map fst d) \/ exists c, k = [c] /\ In c s.
Proof.
  revert d. induction s as [|x s IH]; intros d Hnd.
  - simpl. split; [assumption|]. intros k. split; [now left|].
    intros [H|[c [_ []]]]. exact H.
  - cbn [fold_left].
    assert (NoDup (map fst (freq_step d x)) /\
            forall k, In k (map fst (freq_step d x)) <-> In k (map fst d) \/ k = [x])
      as [Hnd' Hk].
    { unfold freq_step. rewrite dict_set_keys.
      destruct (dict_in [x] d) eqn:E.
      - split; [assumption|]. intros k. split; [now left|].
        intros [H| ->]; [exact H|]. now apply dict_in_keys.
      - split.
        + apply NoDup_app; repeat split; [assumption|repeat constructor; intros []|].
          intros k Hin [<-|[]]. apply dict_in_keys in Hin. congruence.
        + intros k. rewrite in_app_iff. simpl. intuition congruence. }
    destruct (IH _ Hnd') as [Hn Hi]. split; [assumption|].
    intros k. rewrite Hi, Hk. split.
    + intros [[H| ->]|[c [-> Hc]]].
      * now left.
      * right. exists x. split; [reflexivity|now left].
      * right. exists c. split; [reflexivity|now right].
    + intros [H|[c [-> [<-|Hc]]]].
      * left. now left.
      * left. now right.
      * right. now exists c.
Qed.

Lemma NoDup_map_singleton (l : list codepoint) :
  NoDup l -> NoDup (map (fun c => [c]) l).
Proof.
  induction 1 as [|x l Hx Hl IH]; simpl; constructor; [|assumption].
  intros Hin. apply in_map_iff in Hin as [y [E Hy]].
  injection E as ->. contradiction.
Qed.

(** What [analyze_string] puts in the frequency map of [v]. *)
Lemma analyze_string_freq (U : UnicodeData) (v : str) (p : StringProperties) :
  analyze_string U v = Some p ->
  p_character_frequency_map p = fold_left freq_step v [] /\
  p_unique_characters p = Z.of_nat (List.length (nodup N.eq_dec v)) /\
  p_length p = Z.of_nat (List.length v) /\
  p_is_palindrome p = str_eqb (lower U v) (rev (lower U v)) /\
  p_word_count p = Z.of_nat (List.length (split U v)).
Proof.
  unfold analyze_string. destruct (compute_sha256 v); [|discriminate].
  intros [= <-]. repeat split.
Qed.

Lemma freq_has_char (v : str) (k : str) :
  dict_in k (fold_left freq_step v []) = true <-> exists c, k = [c] /\ In c v.
Proof.
  rewrite dict_in_keys.
  destruct (@freq_keys v [] (NoDup_nil _)) as [_ Hi].
  rewrite Hi. simpl. tauto.
Qed.

(** X11. The frequency map of a text gives each character the number of
    times it occurs, and 0 by default to a character that does not occur;
    its keys are the characters of the text, each once, so it has as many
    entries as the text has distinct characters. *)
Theorem analyze_string_frequencies (U : UnicodeData) (v : str) (p : StringProperties) :
  analyze_string U v = Some p ->
  let freq := p_character_frequency_map p in
  (forall c, dict_get freq [c] 0%Z = Z.of_nat (count_occ N.eq_dec v c)) /\
  (forall k, dict_in k freq = true <-> exists c, k = [c] /\ In c v) /\
  NoDup (map fst freq) /\
  Z.of_nat (List.length freq) = p_unique_characters p.
Proof.
  intros Ha freq. destruct (analyze_string_freq _ _ Ha) as (Ef & Eu & _).
  unfold freq. rewrite Ef, Eu. clear Ef Eu freq Ha.
  destruct (@freq_keys v [] (NoDup_nil _)) as [Hnd Hi].
  repeat split.
  - intros c. rewrite freq_count. simpl. lia.
  - apply freq_has_char.
  - apply freq_has_char.
  - exact Hnd.
  - f_equal. rewrite <- (length_map fst).
    rewrite <- (length_map (fun c => [c]) (nodup N.eq_dec v)).
    apply Nat.le_antisymm; apply NoDup_incl_length.
    + exact Hnd.
    + intros k Hk. apply Hi in Hk as [[]|[c [-> Hc]]].
      apply (in_map (fun c : codepoint => [c])). now apply nodup_In.
    + apply NoDup_map_singleton, NoDup_nodup.
    + intros k Hk. apply in_map_iff in Hk as [c [<- Hc]].
      apply Hi. right. exists c. split; [reflexivity|].
      now apply nodup_In in Hc.
Qed.

Lemma analyze_string_frequencies_witness :
  let v := py "level" in
  let freq := p_character_frequency_map (r_properties (level_record [])) in
  (forall c, dict_get freq [c] 0%Z = Z.of_nat (count_occ N.eq_dec v c)) /\
  (forall k, dict_in k freq = true <-> exists c, k = [c] /\ In c v) /\
  NoDup (map fst freq) /\
  Z.of_nat (List.length freq) = p_unique_characters (r_properties (level_record [])).
Proof.
  intros v freq.
  apply (@analyze_string_frequencies ascii_only v (r_properties (level_record []))).
  vm_compute. reflexivity.
Defined.

(** ** Filtering the tables the service can be in *)

Lemma evaluate_reading (q : Filters) (r : StringResponse) :
  evaluate q r = true <->
  (forall b, f_is_palindrome q = Some b -> p_is_palindrome (r_properties r) = b) /\
  (forall n, f_min_length q = Some n -> (n <= p_length (r_properties r))%Z) /\
  (forall n, f_max_length q = Some n -> (p_length (r_properties r) <= n)%Z) /\
  (forall n, f_word_count q = Some n -> p_word_count (r_properties r) = n) /\
  (forall c, f_contains_character q = Some c ->
             dict_in c (p_character_frequency_map (r_properties r)) = true).
Proof.
  unfold evaluate, constraint, dict_in.
  destruct (f_is_palindrome q) as [b|], (f_min_length q) as [lo|],
    (f_max_length q) as [hi|], (f_word_count q) as [w|],
    (f_contains_character q) as [c|];
    rewrite ?andb_true_iff, ?andb_true_r, ?eqb_true_iff, ?Z.leb_le, ?Z.eqb_eq;
    cbn [andb]; split;
    try (intros H; repeat split; intros x E; try discriminate E;
         injection E as <-; tauto);
    intros (H1 & H2 & H3 & H4 & H5); repeat split;
    first [now apply H1 | now apply H2 | now apply H3 | now apply H4
          | now apply H5 | reflexivity].
Qed.

(** X12. On a table the service can be in, [list_strings] selects by the
    stored values themselves: a row is returned exactly when its value has
    the palindrome flag asked for, a length within the bounds, the number
    of words asked for, and holds the character asked for. *)
Theorem list_strings_reads_values (U : UnicodeData) (db : table) (q : Filters)
    (r : StringResponse) :
  reachable U db ->
  (In r (data (list_strings db q)) <->
   In r (db_query_all db) /\
   (forall b, f_is_palindrome q = Some b ->
              str_eqb (lower U (r_value r)) (rev (lower U (r_value r))) = b) /\
   (forall n, f_min_length q = Some n -> (n <= Z.of_nat (List.length (r_value r)))%Z) /\
   (forall n, f_max_length q = Some n -> (Z.of_nat (List.length (r_value r)) <= n)%Z) /\
   (forall n, f_word_count q = Some n ->
              Z.of_nat (List.length (split U (r_value r))) = n) /\
   (forall c, f_contains_character q = Some c ->
              exists x, c = [x] /\ In x (r_value r))).
Proof.
  intros Hr. pose proof (reachable_analysed Hr) as Han.
  rewrite Forall_forall in Han.
  unfold list_strings, db_query_all. cbn [data].
  rewrite filter_In, matches_evaluate, evaluate_reading.
  split; intros [Hin H]; (split; [exact Hin|]);
    destruct (Han _ Hin) as [Ha _];
    destruct (analyze_string_freq _ _ Ha) as (Ef & _ & El & Ep & Ew);
    rewrite Ef, El, Ep, Ew in *;
    destruct H as (H1 & H2 & H3 & H4 & H5); repeat split; try assumption;
    intros c Hc; apply freq_has_char; now apply H5.
Qed.

Lemma list_strings_reads_values_witness :
  let q := set_contains_character (set_min_length no_filters 5) (py "v") in
  In (level_record []) (data (list_strings [level_record []] q)) <->
  In (level_record []) (db_query_all [level_record []]) /\
  (forall b, f_is_palindrome q = Some b ->
             str_eqb (lower ascii_only (py "level")) (rev (lower ascii_only (py "level")))
             = b) /\
  (forall n, f_min_length q = Some n -> (n <= Z.of_nat (List.length (py "level")))%Z) /\
  (forall n, f_max_length q = Some n -> (Z.of_nat (List.length (py "level")) <= n)%Z) /\
  (forall n, f_word_count q = Some n ->
             Z.of_nat (List.length (split ascii_only (py "level"))) = n) /\
  (forall c, f_contains_character q = Some c ->
             exists x, c = [x] /\ In x (py "level")).
Proof.
  intros q.
  apply (@list_strings_reads_values ascii_only [level_record []] q (level_record [])).
  apply reachable_level.
Defined.

Lemma filter_none (A : Type) (f : A -> bool) (l : list A) :
  (forall x, f x = false) -> filter f l = [].
Proof.
  intros H. induction l as [|x l IH]; simpl; [reflexivity|]. now rewrite H.
Qed.

(** X13. Bounds that contradict each other are not refused: with
    min_length above max_length [list_strings] answers with no row and
    count 0, whatever the table. *)
Theorem list_strings_empty_range (db : table) (q : Filters) (lo hi : Z) :
  f_min_length q = Some lo ->
  f_max_length q = Some hi ->
  (hi < lo)%Z ->
  data (list_strings db q) = [] /\ count (list_strings db q) = 0%Z.
Proof.
  intros Hlo Hhi Hlt.
  assert (filter (matches q) (db_query_all db) = []) as E.
  { apply filter_none. intros r. unfold matches. rewrite Hlo, Hhi.
    destruct (match f_is_palindrome q with Some _ => _ | None => _ end);
      [reflexivity|].
    destruct (Z.ltb_spec (p_length (r_properties r)) lo); [reflexivity|].
    rewrite Z.gtb_ltb.
    destruct (Z.ltb_spec hi (p_length (r_properties r))); [reflexivity|lia]. }
  unfold list_strings. cbn [data count]. now rewrite E.
Qed.

Lemma list_strings_empty_range_witness :
  let q := {| f_is_palindrome := None; f_min_length := Some 10%Z;
              f_max_length := Some 5%Z; f_word_count := None;
              f_contains_character := None |} in
  data (list_strings [level_record []] q) = [] /\
  count (list_strings [level_record []] q) = 0%Z.
Proof.
  intros q. apply list_strings_empty_range with (lo := 10%Z) (hi := 5%Z).
  - reflexivity.
  - reflexivity.
  - lia.
Defined.

(** ** What a parsed phrase can ask for *)

(** X14. A dictionary [parse_nl_query] returns is within the declared
    bounds of the query parameters; it never has max_length, never asks for
    texts that are not palindromes, for a word count other than 1 or a
    min_length below 1, and its contains_character is one character. *)
Theorem parse_nl_query_within_bounds (U : UnicodeData) (q : str) (f : Filters) :
  parse_nl_query U q = Ok f ->
  query_valid f = true /\
  f_max_length f = None /\
  (f_is_palindrome f = None \/ f_is_palindrome f = Some true) /\
  (f_word_count f = None \/ f_word_count f = Some 1%Z) /\
  (forall n, f_min_length f = Some n -> (1 <= n)%Z) /\
  (forall c, f_contains_character f = Some c -> exists x, c = [x]).
Proof.
  intros H. pose proof (proj1 (parse_nl_query_fields U q)) as F. cbv zeta in F.
  rewrite H in F. destruct F as (_ & _ & Hw & Hp & Hmin & Hmax & Hc & _).
  assert (forall n, f_min_length f = Some n -> (1 <= n)%Z) as Hn.
  { intros n En. rewrite En in Hmin.
    destruct (re_search (match_longer_than_characters U) _) as [g|].
    - injection Hmin as ->. pose proof (decimal_value_nonneg U g). lia.
    - destruct (re_search _ _) as [g|]; [|discriminate].
      injection Hmin as ->. pose proof (decimal_value_nonneg U g). lia. }
  assert (forall c, f_contains_character f = Some c -> exists x, c = [x]) as Hone.
  { intros c Ec. rewrite Ec in Hc.
    destruct (re_search (match_containing_the_letter U) _) as [g|] eqn:Em.
    - injection Hc as ->.
      apply search_containing_the_letter_shape in Em as (_ & x & _ & _ & -> & _).
      now exists x.
    - repeat match type of Hc with
             | context [if ?b then _ else _] => destruct b
             end;
        try discriminate Hc; injection Hc as ->; now eexists. }
  assert (f_word_count f = None \/ f_word_count f = Some 1%Z) as Hwc.
  { rewrite Hw. match goal with
    | |- context [if ?b then _ else _] => destruct b
    end; [now right|now left]. }
  assert (f_is_palindrome f = None \/ f_is_palindrome f = Some true) as Hpal.
  { rewrite Hp. destruct (str_in (py "palindrom") _); [now right|now left]. }
  repeat split; try assumption.
  unfold query_valid. rewrite Hmax.
  assert (match f_min_length f with Some n => (0 <=? n)%Z | None => true end = true)
    as ->.
  { destruct (f_min_length f) as [n|]; [|reflexivity].
    apply Z.leb_le. specialize (Hn _ eq_refl). lia. }
  assert (match f_contains_character f with
          | Some c => Nat.eqb (List.length c) 1
          | None => true
          end = true) as ->.
  { destruct (f_contains_character f) as [c|]; [|reflexivity].
    now destruct (Hone _ eq_refl) as [x ->]. }
  now destruct Hwc as [-> | ->].
Qed.

Lemma parse_nl_query_within_bounds_witness :
  let f := {| f_is_palindrome := Some true; f_min_length := None;
              f_max_length := None; f_word_count := Some 1%Z;
              f_contains_character := None |} in
  query_valid f = true /\
  f_max_length f = None /\
  (f_is_palindrome f = None \/ f_is_palindrome f = Some true) /\
  (f_word_count f = None \/ f_word_count f = Some 1%Z) /\
  (forall n, f_min_length f = Some n -> (1 <= n)%Z) /\
  (forall c, f_contains_character f = Some c -> exists x, c = [x]).
Proof.
  intros f.
  apply (@parse_nl_query_within_bounds ascii_only
           (py "all single word palindromic strings") f).
  vm_compute. reflexivity.
Defined.

(** ** What the parse does not depend on *)

Section Trimming.
Context (A : Type) (f : A -> bool).

Lemma dropwhile_all (l : list A) : forallb f l = true -> dropwhile f l = [].
Proof.
  induction l as [|x l IH]; simpl; [reflexivity|].
  destruct (f x); [exact IH|discriminate].
Qed.

Lemma dropwhile_app_all (a l : list A) :
  forallb f a = true -> dropwhile f (a ++ l) = dropwhile f l.
Proof.
  induction a as [|x a IH]; simpl; [reflexivity|].
  destruct (f x); [exact IH|discriminate].
Qed.

Lemma dropwhile_app_some (l b : list A) :
  forallb f l = false -> dropwhile f (l ++ b) = dropwhile f l ++ b.
Proof.
  induction l as [|x l IH]; simpl; [discriminate|].
  destruct (f x); [exact IH|reflexivity].
Qed.

Lemma forallb_rev (l : list A) : forallb f (rev l) = forallb f l.
Proof.
  induction l as [|x l IH]; simpl; [reflexivity|].
  rewrite forallb_app, IH. simpl. rewrite andb_true_r. apply andb_comm.
Qed.

Lemma forallb_dropwhile (g : A -> bool) (l : list A) :
  forallb g l = true -> forallb g (dropwhile f l) = true.
Proof.
  induction l as [|x l IH]; simpl; [reflexivity|].
  intros H. apply andb_true_iff in H as [Hx Hl].
  destruct (f x); [now apply IH|]. simpl. now rewrite Hx, Hl.
Qed.

Lemma dropwhile_map (g : A -> A) (l : list A) :
  (forall x, f (g x) = f x) ->
  dropwhile f (map g l) = map g (dropwhile f l).
Proof.
  intros H. induction l as [|x l IH]; simpl; [reflexivity|].
  rewrite H. destruct (f x); [exact IH|reflexivity].
Qed.

End Trimming.

Lemma strip_padding (U : UnicodeData) (a q b : str) :
  forallb (isspace U) a = true ->
  forallb (isspace U) b = true ->
  strip U (a ++ q ++ b) = strip U q.
Proof.
  intros Ha Hb. unfold strip.
  rewrite (@dropwhile_app_all _ (isspace U) a (q ++ b) Ha).
  destruct (forallb (isspace U) q) eqn:Hq.
  - assert (forallb (isspace U) (q ++ b) = true) as Hqb
      by (rewrite forallb_app; now rewrite Hq, Hb).
    now rewrite (@dropwhile_all _ (isspace U) (q ++ b) Hqb),
      (@dropwhile_all _ (isspace U) q Hq).
  - rewrite (@dropwhile_app_some _ (isspace U) q b Hq).
    rewrite rev_app_distr.
    rewrite (@dropwhile_app_all _ (isspace U) (rev b)); [reflexivity|].
    now rewrite forallb_rev.
Qed.

(** X15. Whitespace around a phrase changes nothing of what
    [parse_nl_query] returns or raises, nor the rows and the count
    [filter_by_nl] answers with. *)
Theorem parse_nl_query_ignores_padding (U : UnicodeData) (a q b : str) :
  forallb (isspace U) a = true ->
  forallb (isspace U) b = true ->
  parse_nl_query U (a ++ q ++ b) = parse_nl_query U q /\
  forall db,
    match filter_by_nl U db (a ++ q ++ b), filter_by_nl U db q with
    | Ok x, Ok y =>
        nl_data x = nl_data y /\ nl_count x = nl_count y /\
        parsed_filters (interpreted_query x) = parsed_filters (interpreted_query y)
    | Raise e, Raise e' => e = e'
    | _, _ => False
    end.
Proof.
  intros Ha Hb.
  assert (parse_nl_query U (a ++ q ++ b) = parse_nl_query U q) as E.
  { unfold parse_nl_query. now rewrite strip_padding. }
  split; [exact E|]. intros db. unfold filter_by_nl. rewrite E.
  destruct (parse_nl_query U q); [repeat split|reflexivity].
Qed.

Lemma parse_nl_query_ignores_padding_witness :
  let a := [32%N; 9%N] in
  let b := [10%N] in
  let q := py "palindromic strings" in
  parse_nl_query ascii_only (a ++ q ++ b) = parse_nl_query ascii_only q /\
  forall db,
    match filter_by_nl ascii_only db (a ++ q ++ b), filter_by_nl ascii_only db q with
    | Ok x, Ok y =>
        nl_data x = nl_data y /\ nl_count x = nl_count y /\
        parsed_filters (interpreted_query x) = parsed_filters (interpreted_query y)
    | Raise e, Raise e' => e = e'
    | _, _ => False
    end.
Proof.
  intros a b q. apply parse_nl_query_ignores_padding; reflexivity.
Defined.

Lemma isspace_lower (U : UnicodeData) (c : codepoint) :
  isspace U (Ascii7.lower c) = isspace U c.
Proof.
  unfold Ascii7.lower, Ascii7.between.
  destruct (N.leb_spec 65 c); [|reflexivity].
  destruct (N.leb_spec c 90); [|reflexivity]. cbn [andb].
  unfold isspace, Ascii7.is_ascii, Ascii7.isspace, Ascii7.between.
  destruct (N.ltb_spec (c + 32) 128); [|lia].
  destruct (N.ltb_spec c 128); [|lia].
  destruct (N.leb_spec 9 (c + 32)), (N.leb_spec (c + 32) 13),
    (N.leb_spec 28 (c + 32)), (N.leb_spec (c + 32) 32),
    (N.leb_spec 9 c), (N.leb_spec c 13), (N.leb_spec 28 c), (N.leb_spec c 32);
    cbn [andb orb]; try reflexivity; lia.
Qed.

Lemma strip_lower (U : UnicodeData) (s : str) :
  strip U (map Ascii7.lower s) = map Ascii7.lower (strip U s).
Proof.
  unfold strip.
  rewrite (@dropwhile_map _ (isspace U) Ascii7.lower s (isspace_lower U)).
  rewrite <- map_rev.
  rewrite (@dropwhile_map _ (isspace U) Ascii7.lower _ (isspace_lower U)).
  now rewrite map_rev.
Qed.

Lemma strip_ascii (U : UnicodeData) (s : str) :
  forallb Ascii7.is_ascii s = true -> forallb Ascii7.is_ascii (strip U s) = true.
Proof.
  intros H. unfold strip. rewrite forallb_rev. apply forallb_dropwhile.
  rewrite forallb_rev. now apply forallb_dropwhile.
Qed.

(** X16. On ASCII phrases [parse_nl_query] does not see the case of the
    letters: two phrases that differ only in it are read alike. *)
Theorem parse_nl_query_ignores_case (U : UnicodeData) (q q' : str) :
  forallb Ascii7.is_ascii q = true ->
  forallb Ascii7.is_ascii q' = true ->
  map Ascii7.lower q = map Ascii7.lower q' ->
  parse_nl_query U q = parse_nl_query U q'.
Proof.
  intros Hq Hq' E.
  assert (forall s, forallb Ascii7.is_ascii s = true ->
                    lower U (strip U s) = strip U (map Ascii7.lower s)) as Hl.
  { intros s Hs. unfold lower. rewrite (strip_ascii U s Hs).
    symmetry. apply strip_lower. }
  unfold parse_nl_query. now rewrite (Hl q Hq), (Hl q' Hq'), E.
Qed.

Lemma parse_nl_query_ignores_case_witness :
  parse_nl_query ascii_only (py "Palindromic Strings LONGER than 3")
  = parse_nl_query ascii_only (py "palindromic strings longer than 3").
Proof.
  apply parse_nl_query_ignores_case; vm_compute; reflexivity.
Defined.

(** ** A phrase, end to end *)

(** X17. On a table the service can be in, "strings longer than <numeral>
    characters", for a numeral of at most 4300 digits, is answered with the
    rows whose value has more characters than the numeral says, in the
    order of the enumeration, and their number. *)
Theorem filter_by_nl_longer_than (U : UnicodeData) (db : table) (g : str) :
  reachable U db ->
  g <> [] ->
  forallb (Ascii7.between 48 57) g = true ->
  (List.length g <= int_max_str_digits)%nat ->
  exists answer,
    filter_by_nl U db (py "strings longer than " ++ g ++ py " characters")
    = Ok answer /\
    nl_data answer
    = filter (fun r => (decimal_value U g <? Z.of_nat (List.length (r_value r)))%Z)
             (db_query_all db) /\
    nl_count answer = Z.of_nat (List.length (nl_data answer)).
Proof.
  intros Hr Hne Hg Hlen. unfold filter_by_nl.
  rewrite (parse_longer_than_numeral U Hne Hg).
  rewrite (proj2 (Nat.leb_le _ _) Hlen).
  eexists. split; [reflexivity|]. cbn [nl_data nl_count]. split; [|reflexivity].
  pose proof (reachable_analysed Hr) as Han. rewrite Forall_forall in Han.
  unfold db_query_all. apply filter_ext_in. intros r Hin.
  destruct (Han _ Hin) as [Ha _].
  destruct (analyze_string_freq _ _ Ha) as (_ & _ & El & _).
  unfold matches, only_min_length, set_min_length, no_filters.
  cbn [f_is_palindrome f_min_length f_max_length f_word_count f_contains_character].
  rewrite El.
  destruct (Z.ltb_spec (Z.of_nat (List.length (r_value r))) (decimal_value U g + 1)),
    (Z.ltb_spec (decimal_value U g) (Z.of_nat (List.length (r_value r))));
    try reflexivity; lia.
Qed.

Lemma filter_by_nl_longer_than_witness :
  exists answer,
    filter_by_nl ascii_only [level_record []]
      (py "strings longer than " ++ py "4" ++ py " characters")
    = Ok answer /\
    nl_data answer
    = filter (fun r => (decimal_value ascii_only (py "4")
                        <? Z.of_nat (List.length (r_value r)))%Z)
             (db_query_all [level_record []]) /\
    nl_count answer = Z.of_nat (List.length (nl_data answer)).
Proof.
  apply filter_by_nl_longer_than.
  - apply reachable_level.
  - discriminate.
  - reflexivity.
  - apply Nat.leb_le. vm_compute. reflexivity.
Defined.

(** ** Palindromes of ASCII text *)

Lemma str_eqb_sym (a b : str) : str_eqb a b = str_eqb b a.
Proof.
  revert b. induction a as [|x a IH]; intros [|y b]; simpl; try reflexivity.
  now rewrite IH, N.eqb_sym.
Qed.

Lemma ascii_is_scalar (s : str) :
  forallb Ascii7.is_ascii s = true -> forallb scalar_value s = true.
Proof.
  induction s as [|c s IH]; simpl; [reflexivity|].
  intros H. apply andb_true_iff in H as [Hc Hs]. rewrite (IH Hs).
  unfold Ascii7.is_ascii in Hc. apply N.ltb_lt in Hc. unfold scalar_value.
  now rewrite (proj2 (N.ltb_lt c 0xD800)) by lia.
Qed.

Lemma analyze_string_ascii (U : UnicodeData) (s : str) :
  forallb Ascii7.is_ascii s = true ->
  exists p,
    analyze_string U s = Some p /\
    p_is_palindrome p
    = str_eqb (map Ascii7.lower s) (rev (map Ascii7.lower s)).
Proof.
  intros Hs. pose proof (ascii_is_scalar s Hs) as Hv.
  apply (proj2 (analyze_string_total U s)) in Hv.
  destruct (analyze_string U s) as [p|] eqn:Ea; [|congruence].
  exists p. split; [reflexivity|].
  destruct (analyze_string_freq _ _ Ea) as (_ & _ & _ & -> & _).
  unfold lower. now rewrite Hs.
Qed.

(** X18. For ASCII text the palindrome flag is that of the text read
    backwards, and a text followed by itself read backwards always has
    it. *)
Theorem analyze_string_palindrome_ascii (U : UnicodeData) (v : str) :
  forallb Ascii7.is_ascii v = true ->
  exists p p' pp,
    analyze_string U v = Some p /\
    analyze_string U (rev v) = Some p' /\
    analyze_string U (v ++ rev v) = Some pp /\
    p_is_palindrome p' = p_is_palindrome p /\
    p_is_palindrome pp = true.
Proof.
  intros Hv.
  assert (forallb Ascii7.is_ascii (rev v) = true) as Hr by now rewrite forallb_rev.
  assert (forallb Ascii7.is_ascii (v ++ rev v) = true) as Hd
    by (rewrite forallb_app; now rewrite Hv, Hr).
  destruct (analyze_string_ascii U v Hv) as (p & Ea & Ep).
  destruct (analyze_string_ascii U (rev v) Hr) as (p' & Ea' & Ep').
  destruct (analyze_string_ascii U (v ++ rev v) Hd) as (pp & Ead & Epd).
  exists p, p', pp. repeat split; try assumption.
  - rewrite Ep, Ep', map_rev, rev_involutive. apply str_eqb_sym.
  - rewrite Epd, map_app, map_rev, rev_app_distr, rev_involutive.
    apply str_eqb_refl.
Qed.

Lemma analyze_string_palindrome_ascii_witness :
  exists p p' pp,
    analyze_string ascii_only (py "Madam") = Some p /\
    analyze_string ascii_only (rev (py "Madam")) = Some p' /\
    analyze_string ascii_only (py "Madam" ++ rev (py "Madam")) = Some pp /\
    p_is_palindrome p' = p_is_palindrome p /\
    p_is_palindrome pp = true.
Proof.
  apply analyze_string_palindrome_ascii. vm_compute. reflexivity.
Defined.

(** ** One key, one family of rules *)

(** X19. In a dictionary [parse_nl_query] returns each key is there
    exactly when a rule of its own fired on the lowercased, trimmed
    phrase, whatever the other rules did: word_count for "single word" or
    "single-word", is_palindrome for "palindrom", min_length for "longer
    than <digits>", contains_character for the three rules on characters. *)
Theorem parse_nl_query_keys (U : UnicodeData) (q : str) (f : Filters) :
  parse_nl_query U q = Ok f ->
  let ql := lower U (strip U q) in
  (f_word_count f = Some 1%Z <->
   str_in (py "single word") ql || str_in (py "single-word") ql = true) /\
  (f_is_palindrome f = Some true <-> str_in (py "palindrom") ql = true) /\
  (f_min_length f = None <->
   re_search (fun s => option_map fst (match_longer_than U s)) ql = None /\
   re_search (match_longer_than_characters U) ql = None) /\
  (f_contains_character f = None <->
   re_search (match_containing_the_letter U) ql = None /\
   str_in (py "first vowel") ql = false /\
   str_in (py "containing the letter z") ql
   || str_in (py "contain the letter z") ql
   || str_in (py "containing z") ql = false).
Proof.
  intros H ql. pose proof (proj1 (parse_nl_query_fields U q)) as F. cbv zeta in F.
  rewrite H in F. fold ql in F.
  destruct F as (_ & _ & Hw & Hp & Hmin & _ & Hc & _).
  rewrite Hw, Hp, Hmin, Hc. clear Hw Hp Hmin Hc H.
  destruct (str_in (py "single word") ql || str_in (py "single-word") ql),
    (str_in (py "palindrom") ql),
    (re_search (fun s => option_map fst (match_longer_than U s)) ql),
    (re_search (match_longer_than_characters U) ql),
    (re_search (match_containing_the_letter U) ql),
    (str_in (py "containing the letter z") ql
     || str_in (py "contain the letter z") ql
     || str_in (py "containing z") ql),
    (str_in (py "first vowel") ql);
    repeat split; intros;
    repeat match goal with
           | X : _ /\ _ |- _ => destruct X
           end;
    congruence.
Qed.

Lemma parse_nl_query_keys_witness :
  let q := py "all single word palindromic strings" in
  let f := {| f_is_palindrome := Some true; f_min_length := None;
              f_max_length := None; f_word_count := Some 1%Z;
              f_contains_character := None |} in
  let ql := lower ascii_only (strip ascii_only q) in
  (f_word_count f = Some 1%Z <->
   str_in (py "single word") ql || str_in (py "single-word") ql = true) /\
  (f_is_palindrome f = Some true <-> str_in (py "palindrom") ql = true) /\
  (f_min_length f = None <->
   re_search (fun s => option_map fst (match_longer_than ascii_only s)) ql = None /\
   re_search (match_longer_than_characters ascii_only) ql = None) /\
  (f_contains_character f = None <->
   re_search (match_containing_the_letter ascii_only) ql = None /\
   str_in (py "first vowel") ql = false /\
   str_in (py "containing the letter z") ql
   || str_in (py "contain the letter z") ql
   || str_in (py "containing z") ql = false).
Proof.
  intros q f. apply (@parse_nl_query_keys ascii_only q f).
  vm_compute. reflexivity.
Defined.
